(** * The forecast round-trip validator of neuralgcm/api_test.py

    A shallow embedding of [horizontal_regrid] and of the steps of
    [APITest.test_stochastic_model_basics], with the xarray and numpy
    operations they call, and the properties of the validation protocol.

    Conventions.
    - Array elements are IEEE binary64 numbers ([float]); the comparison
      against the tolerance table is made in binary64 by numpy, whatever the
      precision of the fields.
    - A Python exception is a value [Raise e] of the [result] monad; the
      verdict of the test is an [outcome].
    - A dictionary keyed by variable names is a [gmap string]. *)

From Stdlib Require Import Floats ZArith.
From stdpp Require Import gmap strings list fin_maps.

Set Warnings "-inexact-float".
Open Scope string_scope.
Open Scope list_scope.

(** ** Exceptions *)

Inductive exn : Set :=
| ValueError
| IndexError.

Inductive result (A : Type) : Type :=
| Ok (a : A)
| Raise (e : exn).
Arguments Ok {A} a.
Arguments Raise {A} e.

#[global] Instance result_ret : MRet result := λ A a, Ok a.
#[global] Instance result_bind : MBind result :=
  λ A B k r, match r with Ok a => k a | Raise e => Raise e end.
#[global] Instance result_fmap : FMap result :=
  λ A B f r, match r with Ok a => Ok (f a) | Raise e => Raise e end.

Definition ok_value {A} (r : result A) : option A :=
  match r with Ok a => Some a | Raise _ => None end.

Definition raised {A} (r : result A) : option exn :=
  match r with Ok _ => None | Raise e => Some e end.

(** Applies [f] to every entry of a dictionary; the first exception, in the
    order of iteration, aborts the traversal. *)
Definition map_try {A B} (f : A → result B) (m : gmap string A)
  : result (gmap string B) :=
  match omap (λ kv, raised (f kv.2)) (map_to_list m) with
  | e :: _ => Raise e
  | [] => Ok (omap (λ a, ok_value (f a)) m)
  end.

(** ** numpy arrays and xarray variables *)

(** An n-dimensional array: its shape and the element at a multi-index
    (one position per axis). *)
Record ndarray : Type := mk_ndarray {
  shape : list nat;
  item : list nat → float
}.

(** [np.ndindex]: every multi-index of a shape, in row-major order. *)
Fixpoint ndindex (s : list nat) : list (list nat) :=
  match s with
  | [] => [[]]
  | n :: s' => flat_map (λ i, cons i <$> ndindex s') (seq 0 n)
  end.

(** [ndarray.ravel]: the elements in row-major order. *)
Definition ravel (a : ndarray) : list float := item a <$> ndindex (shape a).

(** [xarray.Variable] (a reserved word here, hence [Var]): an array whose
    axes are named. *)
Record Var : Type := mk_Var {
  dims : list string;
  values : ndarray
}.

(** [Variable.sizes]: every dimension with its length, in axis order. *)
Definition sizes (v : Var) : list (string * nat) :=
  zip (dims v) (shape (values v)).

Definition dim_size (d : string) (v : Var) : option nat :=
  (λ p : nat * (string * nat), p.2.2) <$> list_find (λ p, p.1 = d) (sizes v).

(** Variables as xarray builds them: distinct dimension names, one per
    axis. *)
Definition wf_var (v : Var) : Prop :=
  NoDup (dims v) ∧ length (dims v) = length (shape (values v)).

(** A coordinate label: a number (longitude, latitude, level), held in
    binary64, or a [datetime64], counted in nanoseconds. *)
Inductive label : Type :=
| LFloat (x : float)
| LTime (ns : Z).

(** A coordinate: a scalar one ([c_dim = None], one label) or one that runs
    along a dimension. *)
Record Coordinate : Type := mk_Coordinate {
  c_dim : option string;
  c_labels : list label
}.

(** [xarray.Dataset]: data variables and coordinates, by name. *)
Record Dataset : Type := mk_Dataset {
  data_vars : gmap string Var;
  coords : gmap string Coordinate
}.

#[global] Instance wf_var_dec v : Decision (wf_var v).
Proof. unfold wf_var. apply _. Defined.

Definition wf_dataset (ds : Dataset) : Prop :=
  map_Forall (λ _ v, wf_var v) (data_vars ds).

(** [Dataset.dims]: the dimensions of the variables and coordinates. *)
Definition has_dim (d : string) (ds : Dataset) : Prop :=
  map_Exists (λ _ v, d ∈ dims v) (data_vars ds)
  ∨ map_Exists (λ _ c, c_dim c = Some d) (coords ds).

#[global] Instance has_dim_dec d ds : Decision (has_dim d ds).
Proof. unfold has_dim. apply _. Defined.

(** ** Loading the reference data (lines 59-60) *)

(** [Variable.set_dims] with one new leading axis of length 1. *)
Definition var_expand_dims (d : string) (v : Var) : Var :=
  {| dims := d :: dims v;
     values := {| shape := 1 :: shape (values v);
                  item := λ idx, item (values v) (tail idx) |} |}.

(** A variable or coordinate of that name exists and is not a scalar. *)
Definition names_non_scalar (d : string) (ds : Dataset) : bool :=
  match data_vars ds !! d, coords ds !! d with
  | Some v, _ => bool_decide (dims v ≠ [])
  | None, Some c => bool_decide (c_dim c ≠ None)
  | None, None => false
  end.

(** [Dataset.expand_dims(d)] with a single name: xarray raises [ValueError]
    when [d] is already a dimension, or names a variable that is not a
    scalar; otherwise every data variable gets a new leading axis [d] of
    length 1, coordinates stay as they are, and a scalar coordinate called
    [d] becomes the coordinate of the new dimension. *)
Definition expand_dims (d : string) (ds : Dataset) : result Dataset :=
  if decide (has_dim d ds) then Raise ValueError
  else if names_non_scalar d ds then Raise ValueError
  else Ok {| data_vars := var_expand_dims d <$> data_vars ds;
             coords := alter (λ c, {| c_dim := Some d; c_labels := c_labels c |})
                             d (coords ds) |}.

(** [xarray.load_dataset(f).expand_dims('time')], on the dataset the file
    holds. *)
Definition load_reference (file : Dataset) : result Dataset :=
  expand_dims "time" file.

(** ** Horizontal regridding (lines 28-43) *)

(** [dinosaur.spherical_harmonic.Grid], as far as it is used: the nodal
    longitudes and latitudes, in radians. *)
Record Grid : Type := mk_Grid {
  longitudes : list float;
  latitudes : list float
}.

(** [dinosaur.horizontal_interpolation.Regridder]: two grids and the
    regridding of one horizontal field, [regridder(field)]. *)
Record Regridder : Type := mk_Regridder {
  source_grid : Grid;
  target_grid : Grid;
  call : ndarray → result ndarray
}.

(** The dimensions that are looped over, with their lengths. *)
Definition loop_sizes (core : list string) (v : Var) : list (string * nat) :=
  filter (λ p, p.1 ∉ core) (sizes v).

(** The multi-index into a variable with dimensions [ds] that has the loop
    positions [o] on the looped dimensions, in order, and the core positions
    [ij] on the core dimensions. *)
Fixpoint gather (core ds : list string) (o ij : list nat) : list nat :=
  match ds with
  | [] => []
  | d :: ds' =>
      match list_find (λ c, c = d) core with
      | Some (p, _) => default 0 (ij !! p) :: gather core ds' o ij
      | None => hd 0 o :: gather core ds' (tail o) ij
      end
  end.

(** The array over the core dimensions at one position [o] of the loop. *)
Definition core_slice (core : list string) (v : Var) (o : list nat) : ndarray :=
  {| shape := (λ d, default 0 (dim_size d v)) <$> core;
     item := λ ij, item (values v) (gather core (dims v) o ij) |}.

(** [apply_ufunc] on one variable, vectorized: the core dimensions, which
    the variable must have, are moved last; the function is called on every
    slice of the loop; the first result fixes the lengths of the (excluded)
    core dimensions of the output, and the other results must agree.
    [np.vectorize] refuses an empty loop when the signature has new output
    dimensions. *)
Definition apply_variable_ufunc (func : ndarray → result ndarray)
    (core : list string) (v : Var) : result Var :=
  if decide (Forall (λ d, d ∈ dims v) core) then
    let loop := loop_sizes core v in
    results ← mapM (λ o, func (core_slice core v o)) (ndindex loop.*2);
    match results with
    | [] => Raise ValueError
    | r0 :: _ =>
        if decide (length (shape r0) = length core
                   ∧ Forall (λ r, shape r = shape r0) results)
        then Ok {| dims := loop.*1 ++ core;
                   values :=
                     {| shape := loop.*2 ++ shape r0;
                        item := λ idx,
                          match func (core_slice core v (take (length loop) idx)) with
                          | Ok r => item r (drop (length loop) idx)
                          | Raise _ => nan
                          end |} |}
        else Raise ValueError
    end
  else Raise ValueError.

(** A coordinate survives [exclude_dims] when it does not run along an
    excluded dimension. *)
Definition off_dims (core : list string) (c : Coordinate) : Prop :=
  match c_dim c with Some d => d ∉ core | None => True end.

#[global] Instance off_dims_dec core c : Decision (off_dims core c).
Proof. unfold off_dims. destruct (c_dim c); apply _. Defined.

(** [xarray.apply_ufunc(func, dataset, input_core_dims=[core],
    output_core_dims=[core], exclude_dims=set(core), vectorize=True)]: the
    function is applied to every data variable; the coordinates along the
    excluded dimensions are dropped, the others kept. *)
Definition apply_ufunc (func : ndarray → result ndarray) (core : list string)
    (dataset : Dataset) : result Dataset :=
  vars ← map_try (apply_variable_ufunc func core) (data_vars dataset);
  Ok {| data_vars := vars;
        coords := filter (λ kc, off_dims core kc.2) (coords dataset) |}.

(** The value of pi in binary64 and [np.rad2deg], [x * (180 / pi)]. *)
Definition NPY_PI : float := 0x1.921fb54442d18p+1%float.
Definition rad2deg (x : float) : float := (x * (180 / NPY_PI))%float.

(** A variable fits a dimension of length [n] when it does not have the
    dimension or has it with that length. *)
Definition fits (d : string) (n : nat) (v : Var) : bool :=
  match dim_size d v with Some m => bool_decide (m = n) | None => true end.

(** [ds.coords[name] = array], with a one-dimensional array: the array
    becomes the coordinate of the dimension [name]; xarray raises
    [ValueError] when a variable has that dimension with another length. *)
Definition assign_coord (name : string) (labels : list label) (ds : Dataset)
  : result Dataset :=
  if decide (map_Forall (λ _ v, fits name (length labels) v = true) (data_vars ds))
  then Ok {| data_vars := data_vars ds;
             coords := <[name := {| c_dim := Some name; c_labels := labels |}]>
                         (coords ds) |}
  else Raise ValueError.

Definition degrees (radians : list float) : list label :=
  (λ x, LFloat (rad2deg x)) <$> radians.

Definition horizontal_regrid (regridder : Regridder) (dataset : Dataset)
  : result Dataset :=
  regridded ← apply_ufunc (call regridder) ["longitude"; "latitude"] dataset;
  regridded ← assign_coord "longitude"
                 (degrees (longitudes (target_grid regridder))) regridded;
  assign_coord "latitude"
    (degrees (latitudes (target_grid regridder))) regridded.

(** ** Running the model and time-stamping its output (lines 72-79) *)

(** [datetime64] and [timedelta64] values are signed 64-bit counts, of
    nanoseconds here; their arithmetic wraps around. *)
Definition int64_min : Z := - 2 ^ 63.
Definition int64_max : Z := 2 ^ 63 - 1.
Definition wrap64 (z : Z) : Z := ((z + 2 ^ 63) mod 2 ^ 64 - 2 ^ 63)%Z.

(** [np.timedelta64(n, 'h')], in nanoseconds. *)
Definition timedelta64_h (n : Z) : Z := (n * 3600000000000)%Z.

Definition timesteps : nat := 3.
Definition dt : Z := timedelta64_h 1.

(** [np.arange(start, stop, step)] on [datetime64] values: numpy computes the
    length by a truncating division, raises [ValueError] on a zero step, and
    fills the array by repeated addition of the step. *)
Definition arange_length (start stop step : Z) : Z :=
  if ((0 <? step) && (start <? stop))%Z
  then ((stop - start + (step - 1)) ÷ step)%Z
  else if ((step <? 0) && (stop <? start))%Z
  then ((stop - start + (step + 1)) ÷ step)%Z
  else 0%Z.

Fixpoint arange_fill (n : nat) (value step : Z) : list Z :=
  match n with
  | O => []
  | S n' => value :: arange_fill n' (wrap64 (value + step)) step
  end.

Definition np_arange (start stop step : Z) : result (list Z) :=
  if (step =? 0)%Z then Raise ValueError
  else Ok (arange_fill (Z.to_nat (arange_length start stop step)) start step).

(** Lines 77-78: [t0 = ds_tl31.time.values[0]] and
    [times = np.arange(t0, t0 + timesteps * dt, dt)], on the [datetime64]
    array [ds_tl31.time.values], for a step count and a time step. *)
Definition rollout_times (time_values : list Z) (steps : nat) (timedelta : Z)
  : result (list Z) :=
  match time_values with
  | [] => Raise IndexError
  | t0 :: _ =>
      np_arange t0 (wrap64 (t0 + wrap64 (Z.of_nat steps * timedelta))) timedelta
  end.

(** The encoded state of the model, at a simulation time. *)
Record Encoded (Latent : Type) : Type := mk_Encoded {
  sim_time : Z;
  latent : Latent
}.
Arguments mk_Encoded {Latent} _ _.
Arguments sim_time {Latent} _.
Arguments latent {Latent} _.

(** One decoded, time-stamped state of the rollout. *)
Record Snapshot (Fields : Type) : Type := mk_Snapshot {
  valid_time : Z;
  fields : Fields
}.
Arguments mk_Snapshot {Fields} _ _.
Arguments valid_time {Fields} _.
Arguments fields {Fields} _.

Section Unroll.
Context {Latent Fields Forcings : Type}.

(** The transition function of the model over one time step and its
    decoder: the model's own, not specified. *)
Variable transition : Forcings → Z → Latent → Latent.
Variable decode : Forcings → Latent → Fields.

Definition advance (forcings : Forcings) (timedelta : Z)
    (state : Encoded Latent) : Encoded Latent :=
  {| sim_time := (sim_time state + timedelta)%Z;
     latent := transition forcings timedelta (latent state) |}.

Definition snapshot (forcings : Forcings) (state : Encoded Latent)
  : Snapshot Fields :=
  {| valid_time := sim_time state;
     fields := decode forcings (latent state) |}.

Fixpoint trajectory (forcings : Forcings) (timedelta : Z) (steps : nat)
    (state : Encoded Latent) : list (Encoded Latent) :=
  match steps with
  | O => []
  | S n => state :: trajectory forcings timedelta n
                      (advance forcings timedelta state)
  end.

(** Modelled from the spec: [PressureLevelModel.unroll] of neuralgcm/api.py,
    which is not among the sources. The rollout output is a sequence of
    [steps] decoded, time-stamped states produced by repeated application
    of the transition function; with [start_with_input] its first element
    is the decoded initial condition, otherwise the state after one step.
    The first component is the state after [steps] steps. *)
Definition unroll (state : Encoded Latent) (forcings : Forcings)
    (steps : nat) (timedelta : Z) (start_with_input : bool)
  : Encoded Latent * list (Snapshot Fields) :=
  let first :=
    if start_with_input then state else advance forcings timedelta state in
  (Nat.iter steps (advance forcings timedelta) state,
   snapshot forcings <$> trajectory forcings timedelta steps first).
End Unroll.

(** ** Validation (lines 82-102) *)

(** [Dataset.head(d=n)]: the first [n] positions along the dimension [d],
    which must exist. *)
Definition var_head (d : string) (n : nat) (v : Var) : Var :=
  {| dims := dims v;
     values :=
       {| shape := zip_with (λ d' m, if decide (d' = d) then n `min` m else m)
                            (dims v) (shape (values v));
          item := item (values v) |} |}.

Definition coord_head (d : string) (n : nat) (c : Coordinate) : Coordinate :=
  {| c_dim := c_dim c;
     c_labels := if decide (c_dim c = Some d) then take n (c_labels c)
                 else c_labels c |}.

Definition head (d : string) (n : nat) (ds : Dataset) : result Dataset :=
  if decide (has_dim d ds)
  then Ok {| data_vars := var_head d n <$> data_vars ds;
             coords := coord_head d n <$> coords ds |}
  else Raise ValueError.

(** [Dataset.drop_vars(names)]: every name must be a variable or a coordinate
    of the dataset ([ValueError] otherwise); the named ones are removed. *)
Definition drop_vars (names : list string) (ds : Dataset) : result Dataset :=
  if decide (Forall (λ k, is_Some (data_vars ds !! k) ∨ is_Some (coords ds !! k))
                    names)
  then Ok {| data_vars := foldr delete (data_vars ds) names;
             coords := foldr delete (coords ds) names |}
  else Raise ValueError.

(** The message of an assertion: literal text and formatted values, as an
    f-string puts them together. *)
Inductive fpart : Type :=
| Text (s : string)
| Value (table : gmap string float).

Inductive assertion : Type :=
| NotClose                       (* raised by xarray.testing.assert_allclose *)
| NotTrue (msg : list fpart).    (* raised by assertTrue(expr, msg=...) *)

(** The verdict of the test: it passes, fails on an assertion, or is aborted
    by another exception. *)
Inductive outcome : Type :=
| Passed
| Failed (a : assertion)
| Errored (e : exn).

Definition LF : string := String (Ascii.ascii_of_nat 10) EmptyString.

Definition tolerance : gmap string float :=
  list_to_map
    [ ("u_component_of_wind", 0.04%float);
      ("v_component_of_wind", 0.08%float);
      ("temperature", 0.02%float);
      ("geopotential", 0.0005%float);
      ("specific_humidity", 0.003%float);
      ("specific_cloud_liquid_water_content", 0.12%float);
      ("specific_cloud_ice_water_content", 0.15%float) ].

(** [Dataset.to_array().values] of a dataset of scalars: the values of its
    variables, stacked; stacking no variable at all raises [ValueError]. *)
Definition to_array {A} (ds : gmap string A) : result (list A) :=
  match (map_to_list ds).*2 with
  | [] => Raise ValueError
  | xs => Ok xs
  end.

(** [ndarray.all()]. *)
Definition array_all (xs : list bool) : bool := forallb id xs.

(** Lines 99-102. A comparison of two datasets has the variables that both
    have. *)
Definition assert_tolerance (typical_relative_error : gmap string float)
  : outcome :=
  match to_array (map_zip_with PrimFloat.ltb typical_relative_error tolerance) with
  | Raise e => Errored e
  | Ok flags =>
      if array_all flags then Passed
      else Failed (NotTrue [Text ("typical relative error is too large:" +:+ LF);
                            Value typical_relative_error])
  end.

(** The position in [idx], a multi-index over the dimensions [names], of
    each dimension of [ds]. *)
Definition project (names : list string) (idx : list nat) (ds : list string)
  : list nat :=
  (λ d, default 0 (list_find (λ x, x = d) names ≫= λ p, idx !! p.1)) <$> ds.

(** The dimensions of a binary operation: those of the left operand, then
    the new ones of the right operand. *)
Definition broadcast_sizes (a b : Var) : list (string * nat) :=
  sizes a ++ filter (λ p, p.1 ∉ dims a) (sizes b).

(** Arithmetic on two variables broadcasts them by dimension name; xarray
    raises [ValueError] when a shared dimension has two lengths. *)
Definition var_binop (f : float → float → float) (a b : Var) : result Var :=
  if decide (Forall (λ p, fits p.1 p.2 b = true) (sizes a)) then
    let out := broadcast_sizes a b in
    Ok {| dims := out.*1;
          values :=
            {| shape := out.*2;
               item := λ idx,
                 f (item (values a) (project out.*1 idx (dims a)))
                   (item (values b) (project out.*1 idx (dims b))) |} |}
  else Raise ValueError.

Definition var_map (f : float → float) (v : Var) : Var :=
  {| dims := dims v;
     values := {| shape := shape (values v);
                  item := λ idx, f (item (values v) idx) |} |}.

(** Arithmetic on two datasets, taken on a common index (the datasets are
    compared after [assert_allclose] has matched their dimensions; xarray's
    alignment of differing indexes is outside this model): the result has
    the data variables that both datasets have. *)
Definition ds_binop (f : float → float → float) (a b : gmap string Var)
  : result (gmap string Var) :=
  map_try id (map_zip_with (var_binop f) a b).

(** A reduction over all the dimensions of every data variable. *)
Definition reduce (f : list float → float) (ds : gmap string Var)
  : gmap string float :=
  (λ v, f (ravel (values v))) <$> ds.

Section Validation.
(** numpy's reductions [median] and [std] over all the elements of an
    array, and its elementwise closeness test for an absolute tolerance. *)
Variables median std : list float → float.
Variable isclose : float → float → float → bool.

Definition array_allclose (atol : float) (x y : ndarray) : bool :=
  bool_decide (shape x = shape y)
  && forallb (λ i, isclose atol (item x i) (item y i)) (ndindex (shape x)).

Definition var_allclose (atol : float) (a b : Var) : bool :=
  bool_decide (dims a = dims b) && array_allclose atol (values a) (values b).

(** Numbers are compared with the tolerance, times exactly. *)
Definition label_close (atol : float) (l1 l2 : label) : bool :=
  match l1, l2 with
  | LFloat x, LFloat y => isclose atol x y
  | LTime s, LTime t => bool_decide (s = t)
  | _, _ => false
  end.

Definition coord_allclose (atol : float) (c1 c2 : Coordinate) : bool :=
  bool_decide (c_dim c1 = c_dim c2)
  && bool_decide (length (c_labels c1) = length (c_labels c2))
  && forallb (λ p, label_close atol p.1 p.2) (zip (c_labels c1) (c_labels c2)).

(** [xarray.testing.assert_allclose(a, b, atol=atol)] holds when the two
    datasets have the same coordinate names and the same variables, every
    pair with the same dimensions, the same shape and close values. *)
Definition allclose (a b : Dataset) (atol : float) : bool :=
  bool_decide (dom (coords a) = dom (coords b))
  && bool_decide (dom (data_vars a) = dom (data_vars b))
  && bool_decide (map_Forall (λ _ ok, ok = true)
       (map_zip_with (var_allclose atol) (data_vars a) (data_vars b)))
  && bool_decide (map_Forall (λ _ ok, ok = true)
       (map_zip_with (coord_allclose atol) (coords a) (coords b))).

(** Line 89: [abs(actual - expected).median() / expected.std()]. *)
Definition typical_relative_error (actual expected : Dataset)
  : result (gmap string float) :=
  difference ← ds_binop PrimFloat.sub (data_vars actual) (data_vars expected);
  Ok (map_zip_with PrimFloat.div
        (reduce median (var_map PrimFloat.abs <$> difference))
        (reduce std (data_vars expected))).

(** Lines 82-102, on the output dataset and the regridded dataset. *)
Definition validate (ds_out ds_in : Dataset) : outcome :=
  match head "time" 1 ds_out with
  | Raise e => Errored e
  | Ok actual =>
      match drop_vars ["sea_surface_temperature"; "sea_ice_cover"] ds_in with
      | Raise e => Errored e
      | Ok expected =>
          if allclose actual expected 1e6 then
            match typical_relative_error actual expected with
            | Raise e => Errored e
            | Ok error => assert_tolerance error
            end
          else Failed NotClose
      end
  end.
End Validation.

(** ** Instances for evaluation

    Binary64 versions of the reductions and of the closeness test, and small
    datasets, on which the definitions above are run. *)

Fixpoint insert_sorted (x : float) (l : list float) : list float :=
  match l with
  | [] => [x]
  | y :: l' => if (x <=? y)%float then x :: l else y :: insert_sorted x l'
  end.

(** The median of the elements that are not NaN; NaN when there is none. *)
Definition median64 (l : list float) : float :=
  let s := foldr insert_sorted [] (filter (λ x, is_nan x = false) l) in
  let n := length s in
  match n with
  | O => nan
  | _ => if Nat.odd n then nth (n / 2) s nan
         else ((nth (n / 2 - 1) s nan + nth (n / 2) s nan) / 2)%float
  end.

Definition float_of_nat (n : nat) : float :=
  PrimFloat.of_uint63 (Uint63.of_Z (Z.of_nat n)).

Definition mean64 (l : list float) : float :=
  (foldl PrimFloat.add 0 l / float_of_nat (length l))%float.

(** The standard deviation with zero degrees of freedom. *)
Definition std64 (l : list float) : float :=
  let m := mean64 l in
  PrimFloat.sqrt (mean64 ((λ x, ((x - m) * (x - m))%float) <$> l)).

Definition is_finite (x : float) : bool :=
  negb (is_nan x) && negb (is_infinity x).

(** [np.isclose(x, y, rtol=1e-5, atol=atol, equal_nan=True)]. *)
Definition isclose64 (atol x y : float) : bool :=
  if is_finite x && is_finite y
  then (abs (x - y) <=? atol + 1e-5 * abs y)%float
  else (x =? y)%float || (is_nan x && is_nan y).

(** An array given by its rows, as nested lists are given to [np.array]. *)
Definition array2 (rows : list (list float)) : ndarray :=
  {| shape := [length rows; length (hd [] rows)];
     item := λ idx, nth (nth 1 idx 0) (nth (hd 0 idx) rows []) nan |}.

Definition midnight : Z := (-347068800000000000)%Z. (* 1959-01-02T00:00 *)

(** A snapshot on two longitudes and one latitude: no time dimension, a
    scalar time coordinate. *)
Definition surface (west east : float) : Var :=
  {| dims := ["longitude"; "latitude"]; values := array2 [[west]; [east]] |}.

Definition state_names : list string :=
  [ "u_component_of_wind"; "v_component_of_wind"; "temperature";
    "geopotential"; "specific_humidity";
    "specific_cloud_liquid_water_content";
    "specific_cloud_ice_water_content" ].

Definition forcing_names : list string :=
  [ "sea_surface_temperature"; "sea_ice_cover" ].

Definition snapshot_coords : gmap string Coordinate :=
  list_to_map
    [ ("time", {| c_dim := None; c_labels := [LTime midnight] |});
      ("longitude", {| c_dim := Some "longitude";
                       c_labels := [LFloat 0; LFloat 180] |});
      ("latitude", {| c_dim := Some "latitude"; c_labels := [LFloat 0] |}) ].

Definition era5_snapshot : Dataset :=
  {| data_vars :=
       list_to_map ((λ k, (k, surface 1 3)) <$> (state_names ++ forcing_names));
     coords := snapshot_coords |}.



(** A regridder between two copies of one grid that leaves a field as it
    is, and one that halves the field onto a single node. *)
Definition two_nodes : Grid :=
  {| longitudes := [0; NPY_PI]%float; latitudes := [0]%float |}.

Definition one_node : Grid :=
  {| longitudes := [0]%float; latitudes := [0]%float |}.

Definition same_grid : Regridder :=
  {| source_grid := two_nodes; target_grid := two_nodes; call := Ok |}.

Definition averaging : Regridder :=
  {| source_grid := two_nodes;
     target_grid := one_node;
     call := λ field,
       if decide (shape field = [2; 1])
       then Ok (array2 [[PrimFloat.div
                           (PrimFloat.add (item field [0; 0]) (item field [1; 0]))
                           2%float]])
       else Raise ValueError |}.

(** Model outputs on the grid of [era5_snapshot], one time step: the state
    variables only, with the given values. *)
Definition output_of (west east : float) : Dataset :=
  {| data_vars :=
       list_to_map ((λ k, (k, var_expand_dims "time" (surface west east)))
                      <$> state_names);
     coords := <["time" := {| c_dim := Some "time";
                              c_labels := [LTime midnight] |}]>
                 snapshot_coords |}.

(** The core dimensions of the regridding, and a decimal fraction [num/den]
    rounded to the nearest binary64 number. *)
Definition horizontal : list string := ["longitude"; "latitude"].

Definition nearest_double (num den : Z) (x : float) : bool :=
  match Prim2SF x with
  | S754_finite false m e =>
      (Z.abs (2 * Z.pos m * den - 2 * num * 2 ^ (- e)) <=? den)%Z
  | _ => false
  end.

Definition from_ok {A} (d : A) (r : result A) : A :=
  match r with Ok a => a | Raise _ => d end.

Definition no_data : Dataset := {| data_vars := ∅; coords := ∅ |}.

Definition the_var (k : string) (ds : Dataset) : Var :=
  default {| dims := []; values := {| shape := []; item := λ _, nan |} |}
          (data_vars ds !! k).

(** The snapshot with its time dimension, and regridded onto its own grid. *)
Definition ds_tl31_example : Dataset :=
  from_ok no_data (load_reference era5_snapshot).

Definition ds_in_example : Dataset :=
  from_ok no_data (horizontal_regrid same_grid ds_tl31_example).

(** The two sides of the comparison for a model output. *)
Definition actual_of (ds_out : Dataset) : Dataset :=
  from_ok no_data (head "time" 1 ds_out).

Definition expected_example : Dataset :=
  from_ok no_data (drop_vars forcing_names ds_in_example).

(** ** Notions used to state further properties *)



(** The error of one variable, as line 89 computes it on two fields of the
    same dimensions and shape. *)
Definition relative_error (median std : list float → float) (a e : Var)
    : float :=
  PrimFloat.div
    (median (zip_with (λ x y, PrimFloat.abs (PrimFloat.sub x y))
                      (ravel (values a)) (ravel (values e))))
    (std (ravel (values e))).

(** Two variables with the same dimensions, shape and elements. *)
Definition var_equiv (v1 v2 : Var) : Prop :=
  dims v1 = dims v2
  ∧ shape (values v1) = shape (values v2)
  ∧ ∀ idx, idx ∈ ndindex (shape (values v1)) →
      item (values v1) idx = item (values v2) idx.

(** Two datasets that are the same up to their first position along [d]. *)
Definition same_head (d : string) (ds1 ds2 : Dataset) : Prop :=
  coord_head d 1 <$> coords ds1 = coord_head d 1 <$> coords ds2
  ∧ ∀ k, option_Forall2 (λ v1 v2, var_equiv (var_head d 1 v1) (var_head d 1 v2))
           (data_vars ds1 !! k) (data_vars ds2 !! k).

(** ** More instances for evaluation *)

(** A reference whose fields are the same at both nodes, with its time
    dimension and regridded onto its own grid. *)
Definition flat_snapshot : Dataset :=
  {| data_vars :=
       list_to_map ((λ k, (k, surface 2 2)) <$> (state_names ++ forcing_names));
     coords := snapshot_coords |}.

Definition flat_reference : Dataset :=
  from_ok no_data
    (horizontal_regrid same_grid (from_ok no_data (load_reference flat_snapshot))).

(** Model outputs of two time steps: the first as in [output_of], the second
    with the given value at both nodes. *)
Definition two_step_field (west east later : float) : Var :=
  {| dims := ["time"; "longitude"; "latitude"];
     values := {| shape := [2; 2; 1];
                  item := λ idx,
                    match idx with
                    | 0 :: ij => item (array2 [[west]; [east]]) ij
                    | _ => later
                    end |} |}.

Definition two_step_output (west east later : float) : Dataset :=
  {| data_vars :=
       list_to_map ((λ k, (k, two_step_field west east later)) <$> state_names);
     coords :=
       <["time" := {| c_dim := Some "time";
                      c_labels := [LTime midnight; LTime (midnight + dt)] |}]>
         snapshot_coords |}.

(** Two tables of errors that differ on a variable without a threshold. *)
Definition table_example : gmap string float :=
  {["temperature" := 0.01%float]}.

Definition table_with_vorticity : gmap string float :=
  <["vorticity" := 5%float]> table_example.

(** * Properties *)

(** A decidable closed proposition, settled by evaluating its decision. *)
Ltac by_computation := apply (bool_decide_unpack _); vm_compute; exact I.

(** A hypothesis [H : x ∈ [a; b; ...]] with [x] different from each. *)
Ltac not_in_list H :=
  repeat (apply elem_of_cons in H as [H|H]; [discriminate|]);
  by apply elem_of_nil in H.

(** ** The result monad *)

Lemma map_try_Ok {A B} (f : A → result B) (m : gmap string A) m' :
  map_try f m = Ok m' →
  m' = omap (λ a, ok_value (f a)) m
  ∧ ∀ k a, m !! k = Some a → ∃ b, f a = Ok b.
Proof.
  unfold map_try.
  destruct (omap _ (map_to_list m)) as [|e l] eqn:E; [|discriminate].
  intros [= <-]. split; [reflexivity|].
  intros k a Hk. destruct (f a) as [b|e] eqn:Hf; [eauto|].
  assert (e ∈ omap (λ kv : string * A, raised (f kv.2)) (map_to_list m)) as Hin.
  { apply list_elem_of_omap. exists (k, a). split.
    - by apply elem_of_map_to_list.
    - simpl. by rewrite Hf. }
  rewrite E in Hin. by apply elem_of_nil in Hin.
Qed.

Lemma map_try_lookup {A B} (f : A → result B) (m : gmap string A) m' k :
  map_try f m = Ok m' →
  m' !! k = m !! k ≫= λ a, ok_value (f a).
Proof. intros [-> _]%map_try_Ok. by rewrite lookup_omap. Qed.

Lemma map_try_total {A B} (f : A → result B) (m : gmap string A) :
  (∀ k a, m !! k = Some a → ∃ b, f a = Ok b) →
  map_try f m = Ok (omap (λ a, ok_value (f a)) m).
Proof.
  intros Hall. unfold map_try.
  destruct (omap _ (map_to_list m)) as [|e l] eqn:E; [reflexivity|].
  assert (e ∈ omap (λ kv : string * A, raised (f kv.2)) (map_to_list m)) as Hin
    by (rewrite E; left).
  apply list_elem_of_omap in Hin as ([k a] & Hka & Hr).
  apply elem_of_map_to_list in Hka.
  destruct (Hall k a Hka) as [b Hb]. simpl in Hr. by rewrite Hb in Hr.
Qed.

Lemma mapM_result_Ok {A B} (f : A → result B) l rs :
  mapM f l = Ok rs → Forall2 (λ a r, f a = Ok r) l rs.
Proof.
  revert rs. induction l as [|a l IH]; intros rs; simpl.
  - intros [= <-]. constructor.
  - destruct (f a) as [r|] eqn:Hr; simpl; [|discriminate].
    destruct (mapM f l) as [rs'|]; simpl; [|discriminate].
    intros [= <-]. constructor; auto.
Qed.

(** ** Comparison of binary64 numbers *)

Lemma SFcompare_antisym x y : SFcompare y x = CompOpp <$> SFcompare x y.
Proof.
  destruct x as [sx|sx| |sx mx ex], y as [sy|sy| |sy my ey]; simpl;
    try reflexivity; try (destruct sx; reflexivity);
    try (destruct sy; reflexivity); try (destruct sx, sy; reflexivity).
  pose proof (Pos.compare_cont_antisym mx my Eq) as H. simpl in H.
  destruct sx, sy; simpl; try reflexivity;
    rewrite (Z.compare_antisym ey ex);
    destruct (ey ?= ex)%Z; simpl; try reflexivity; f_equal.
  - rewrite <- H, CompOpp_involutive. reflexivity.
  - rewrite <- H. reflexivity.
Qed.

Lemma ltb_asym (x y : float) :
  PrimFloat.ltb x y = true → PrimFloat.ltb y x = false.
Proof.
  rewrite !FloatAxioms.ltb_spec. unfold SFltb.
  rewrite (SFcompare_antisym (Prim2SF x) (Prim2SF y)).
  destruct (SFcompare (Prim2SF x) (Prim2SF y)) as [[]|]; simpl; congruence.
Qed.

Lemma ltb_eqb (x y : float) :
  PrimFloat.eqb x y = true → PrimFloat.ltb x y = false.
Proof.
  rewrite FloatAxioms.eqb_spec, FloatAxioms.ltb_spec. unfold SFeqb, SFltb.
  destruct (SFcompare (Prim2SF x) (Prim2SF y)) as [[]|]; simpl; congruence.
Qed.

Lemma ltb_nan (x y : float) : is_nan x = true → PrimFloat.ltb x y = false.
Proof.
  unfold is_nan. rewrite FloatAxioms.eqb_spec, FloatAxioms.ltb_spec.
  unfold SFeqb, SFltb. intros H.
  destruct (Prim2SF x) as [s|s| |s m e] eqn:E; simpl in *.
  - discriminate.
  - destruct s; discriminate.
  - reflexivity.
  - destruct s; rewrite Z.compare_refl, Pos.compare_cont_refl in H; discriminate.
Qed.

(** ** Arrays and their indices *)

Lemma ndindex_length s idx : idx ∈ ndindex s → length idx = length s.
Proof.
  revert idx. induction s as [|n s IH]; intros idx; simpl.
  - intros ->%list_elem_of_singleton. reflexivity.
  - rewrite list_elem_of_In, in_flat_map.
    intros (i & _ & Hin). apply list_elem_of_In, list_elem_of_fmap in Hin
      as (idx' & -> & Hidx'). simpl. by rewrite (IH idx').
Qed.

Lemma list_find_NoDup (names : list string) i d :
  NoDup names → names !! i = Some d →
  list_find (λ x, x = d) names = Some (i, d).
Proof.
  intros Hnd Hi. apply list_find_Some. split; [done|]. split; [done|].
  intros j y Hj Hlt ->. assert (j = i) by by eapply NoDup_lookup. lia.
Qed.

Lemma project_id names idx :
  NoDup names → length idx = length names → project names idx names = idx.
Proof.
  intros Hnd Hlen. apply list_eq. intros i. unfold project.
  rewrite list_lookup_fmap.
  destruct (names !! i) as [d|] eqn:Hd; simpl.
  - rewrite (list_find_NoDup names i d Hnd Hd). simpl.
    destruct (idx !! i) as [x|] eqn:Hx; [done|].
    apply lookup_ge_None in Hx. apply lookup_lt_Some in Hd. lia.
  - symmetry. apply lookup_ge_None. apply lookup_ge_None in Hd. lia.
Qed.

Lemma sizes_fst v :
  length (dims v) = length (shape (values v)) → (sizes v).*1 = dims v.
Proof. intros H. unfold sizes. apply fst_zip. lia. Qed.

Lemma sizes_snd v :
  length (dims v) = length (shape (values v)) → (sizes v).*2 = shape (values v).
Proof. intros H. unfold sizes. apply snd_zip. lia. Qed.

Lemma filter_none {A} (P : A → Prop) `{!∀ x, Decision (P x)} (l : list A) :
  (∀ x, x ∈ l → ¬ P x) → filter P l = [].
Proof.
  intros Hall. induction l as [|x l IH]; [done|].
  rewrite filter_cons. destruct (decide (P x)) as [HP|_].
  - exfalso. apply (Hall x); [left|done].
  - apply IH. intros y Hy. apply Hall. by right.
Qed.

Lemma filter_all {A} (P : A → Prop) `{!∀ x, Decision (P x)} (l : list A) :
  Forall P l → filter P l = l.
Proof.
  induction 1 as [|x l Hx _ IH]; [done|].
  rewrite filter_cons. destruct (decide (P x)); [by rewrite IH|done].
Qed.

Lemma zip_app {A B} (l1 l2 : list A) (k1 k2 : list B) :
  length l1 = length k1 → zip (l1 ++ l2) (k1 ++ k2) = zip l1 k1 ++ zip l2 k2.
Proof.
  revert k1. induction l1 as [|x l1 IH]; intros [|y k1] Hlen; simpl in *; try done.
  f_equal. apply IH. lia.
Qed.

Lemma dim_size_elem v d n :
  NoDup (dims v) → (d, n) ∈ sizes v → dim_size d v = Some n.
Proof.
  intros Hnd Hin. apply list_elem_of_lookup in Hin as [i Hi].
  unfold dim_size.
  assert (list_find (λ p : string * nat, p.1 = d) (sizes v) = Some (i, (d, n)))
    as ->; [|done].
  apply list_find_Some. split; [done|]. split; [done|].
  intros j [d' n'] Hj Hlt Heq. simpl in Heq. subst d'.
  unfold sizes in Hi, Hj.
  apply lookup_zip_with_Some in Hi as (? & ? & [= <- <-] & Hi & _).
  apply lookup_zip_with_Some in Hj as (? & ? & [= <- <-] & Hj & _).
  assert (j = i) by by eapply NoDup_lookup. lia.
Qed.

Lemma ravel_zip_with f (a b c : ndarray) :
  shape c = shape a → shape b = shape a →
  (∀ idx, idx ∈ ndindex (shape a) → item c idx = f (item a idx) (item b idx)) →
  ravel c = zip_with f (ravel a) (ravel b).
Proof.
  unfold ravel. intros -> -> H.
  induction (ndindex (shape a)) as [|i l IH]; [done|]. simpl.
  rewrite H by left. f_equal. apply IH. intros idx Hidx. apply H. by right.
Qed.

(** The loop positions and the core positions go back to the axes they come
    from, wherever the core dimensions stand among the dimensions. *)
Lemma gather_interleaved t l i j :
  gather horizontal ["time"; "longitude"; "level"; "latitude"] [t; l] [i; j]
  = [t; i; l; j].
Proof. reflexivity. Qed.

Lemma gather_core core ds o ij :
  Forall (λ d, d ∈ core) ds → gather core ds o ij = project core ij ds.
Proof.
  induction 1 as [|d ds Hd _ IH]; [done|]. simpl.
  destruct (list_find (λ c, c = d) core) as [[p c]|] eqn:Hf.
  - rewrite IH. unfold project. simpl. done.
  - exfalso. apply list_find_None in Hf.
    rewrite Forall_forall in Hf. by apply (Hf d).
Qed.

(** When the core dimensions are the last ones, as in the fields of the
    model, the slice at [o] is the sub-array at [o]. *)
Lemma gather_core_last core outer o ij :
  NoDup core → Forall (λ d, d ∉ core) outer →
  length o = length outer → length ij = length core →
  gather core (outer ++ core) o ij = o ++ ij.
Proof.
  intros Hnd Hout. revert o.
  induction Hout as [|d outer Hd _ IH]; intros o Ho Hij; simpl.
  - destruct o; [|done]. simpl.
    rewrite gather_core by (apply Forall_forall; auto).
    by apply project_id.
  - destruct o as [|x o]; [done|]. simpl in *.
    destruct (list_find (λ c, c = d) core) as [[p c]|] eqn:Hf.
    + apply list_find_Some in Hf as (Hp & -> & _).
      exfalso. apply Hd. by eapply list_elem_of_lookup_2.
    + f_equal. apply IH; lia.
Qed.

(** ** Loading the reference data *)





(** ** Horizontal regridding *)

Lemma loop_sizes_off core v : Forall (λ p, p.1 ∉ core) (loop_sizes core v).
Proof.
  unfold loop_sizes. apply Forall_forall.
  by intros p [? _]%list_elem_of_filter.
Qed.

Lemma apply_variable_ufunc_Ok func core v v' :
  apply_variable_ufunc func core v = Ok v' →
  Forall (λ d, d ∈ dims v) core
  ∧ dims v' = (loop_sizes core v).*1 ++ core
  ∧ (∃ r0, shape (values v') = (loop_sizes core v).*2 ++ shape r0
           ∧ length (shape r0) = length core)
  ∧ ∀ o, o ∈ ndindex (loop_sizes core v).*2 →
      ∃ r, func (core_slice core v o) = Ok r
           ∧ ∀ ij, item (values v') (o ++ ij) = item r ij.
Proof.
  unfold apply_variable_ufunc.
  destruct (decide (Forall _ core)) as [Hcore|]; [|discriminate].
  destruct (mapM _ _) as [results|] eqn:Hm; simpl; [|discriminate].
  destruct results as [|r0 results]; [discriminate|].
  destruct (decide _) as [[Hlen Hshape]|]; [|discriminate].
  intros [= <-]. simpl. split; [done|]. split; [done|]. split; [eauto|].
  intros o Ho. apply mapM_result_Ok in Hm.
  apply list_elem_of_lookup in Ho as [i Hi].
  destruct (Forall2_lookup_l _ _ _ _ _ Hm Hi) as (r & _ & Hr).
  exists r. split; [done|]. intros ij.
  assert (length o = length (loop_sizes core v)) as Hlo.
  { rewrite (ndindex_length (loop_sizes core v).*2 o), length_fmap; [done|].
    apply list_elem_of_lookup. eauto. }
  rewrite <- Hlo, take_app_length, drop_app_length, Hr. done.
Qed.

Lemma sizes_apply_variable_ufunc func core v v' :
  apply_variable_ufunc func core v = Ok v' →
  filter (λ p, p.1 ∉ core) (sizes v') = loop_sizes core v.
Proof.
  intros (_ & Hd & (r0 & Hs & Hlen) & _)%apply_variable_ufunc_Ok.
  unfold sizes. rewrite Hd, Hs, zip_app, zip_fst_snd by by rewrite !length_fmap.
  rewrite filter_app, (filter_all _ _ (loop_sizes_off core v)).
  rewrite filter_none; [by rewrite app_nil_r|].
  intros [d n] Hin%elem_of_zip_l Hnot. done.
Qed.

Lemma assign_coord_Ok name labels ds ds' :
  assign_coord name labels ds = Ok ds' →
  data_vars ds' = data_vars ds
  ∧ coords ds'
    = <[name := {| c_dim := Some name; c_labels := labels |}]> (coords ds).
Proof. unfold assign_coord. destruct (decide _); [|done]. by intros [= <-]. Qed.

Lemma apply_ufunc_Ok func core ds ds' :
  apply_ufunc func core ds = Ok ds' →
  map_try (apply_variable_ufunc func core) (data_vars ds) = Ok (data_vars ds')
  ∧ coords ds' = filter (λ kc, off_dims core kc.2) (coords ds).
Proof.
  unfold apply_ufunc. destruct (map_try _ _) as [vars|]; simpl; [|done].
  by intros [= <-].
Qed.

Lemma horizontal_regrid_Ok regridder dataset out :
  horizontal_regrid regridder dataset = Ok out →
  map_try (apply_variable_ufunc (call regridder) horizontal) (data_vars dataset)
    = Ok (data_vars out)
  ∧ coords out =
      <["latitude" := {| c_dim := Some "latitude";
                         c_labels := degrees (latitudes (target_grid regridder)) |}]>
     (<["longitude" := {| c_dim := Some "longitude";
                          c_labels := degrees (longitudes (target_grid regridder)) |}]>
        (filter (λ kc, off_dims horizontal kc.2) (coords dataset))).
Proof.
  unfold horizontal_regrid.
  destruct (apply_ufunc _ _ _) as [r1|] eqn:H1; simpl; [|done].
  destruct (assign_coord "longitude" _ r1) as [r2|] eqn:H2; simpl; [|done].
  intros [Hv Hc]%assign_coord_Ok.
  apply assign_coord_Ok in H2 as [Hv2 Hc2].
  apply apply_ufunc_Ok in H1 as [Hv1 Hc1].
  rewrite Hv, Hv2, Hc, Hc2, Hc1. done.
Qed.



(** C10. Whenever [horizontal_regrid] returns, the output has the data
    variables of the input, every variable keeps its non-horizontal
    dimensions with their lengths, and the coordinates of the output other
    than longitude and latitude are those of the input that do not run along
    longitude or latitude, with the same labels. *)
Theorem horizontal_regrid_frame regridder dataset out :
  horizontal_regrid regridder dataset = Ok out →
  dom (data_vars out) = dom (data_vars dataset)
  ∧ (∀ k v v', data_vars dataset !! k = Some v → data_vars out !! k = Some v' →
       filter (λ p, p.1 ∉ horizontal) (sizes v')
       = filter (λ p, p.1 ∉ horizontal) (sizes v))
  ∧ (∀ name c, name ∉ horizontal →
       (coords out !! name = Some c
        ↔ coords dataset !! name = Some c ∧ off_dims horizontal c)).
Proof.
  intros [Hv Hc]%horizontal_regrid_Ok. split; [|split].
  - apply set_eq. intros k. rewrite !elem_of_dom, (map_try_lookup _ _ _ k Hv).
    apply map_try_Ok in Hv as [_ Hall].
    destruct (data_vars dataset !! k) as [v|] eqn:Hk; simpl.
    + destruct (Hall k v Hk) as [v' ->]. simpl. split; eauto.
    + split; intros []; done.
  - intros k v v' Hk Hk'.
    rewrite (map_try_lookup _ _ _ k Hv), Hk in Hk'. simpl in Hk'.
    destruct (apply_variable_ufunc _ _ v) as [w|] eqn:Hw; simpl in Hk'; [|done].
    injection Hk' as ->. by apply sizes_apply_variable_ufunc in Hw.
  - intros name c Hname. rewrite Hc.
    assert (name ≠ "latitude" ∧ name ≠ "longitude") as [? ?].
    { split; intros ->; apply Hname; unfold horizontal;
        repeat constructor. }
    rewrite !lookup_insert_ne by done.
    rewrite map_lookup_filter_Some. simpl. tauto.
Qed.

Lemma horizontal_regrid_frame_witness :
  dom (data_vars (from_ok no_data (horizontal_regrid averaging ds_tl31_example)))
  = dom (data_vars ds_tl31_example)
  ∧ (∀ v', data_vars (from_ok no_data (horizontal_regrid averaging ds_tl31_example))
             !! "temperature" = Some v' →
       filter (λ p, p.1 ∉ horizontal) (sizes v') = [("time", 1)])
  ∧ coords (from_ok no_data (horizontal_regrid averaging ds_tl31_example)) !! "time"
    = Some {| c_dim := Some "time"; c_labels := [LTime midnight] |}.
Proof.
  destruct (horizontal_regrid_frame averaging ds_tl31_example
              (from_ok no_data (horizontal_regrid averaging ds_tl31_example)))
    as (Hdom & Hsizes & Hcoords).
  - vm_compute. reflexivity.
  - split; [exact Hdom|]. split.
    + intros v' Hv'.
      rewrite (Hsizes "temperature" (var_expand_dims "time" (surface 1 3)) v');
        [vm_compute; reflexivity|vm_compute; reflexivity|exact Hv'].
    + apply Hcoords.
      * intros H. vm_compute in H. not_in_list H.
      * split; [vm_compute; reflexivity|].
        vm_compute. intros H. not_in_list H.
Defined.

(** ** The rollout and its time stamps *)

Lemma wrap64_small z : (int64_min ≤ z ≤ int64_max)%Z → wrap64 z = z.
Proof.
  unfold wrap64, int64_min, int64_max. intros H. rewrite Z.mod_small; lia.
Qed.

Lemma arange_fill_spec n value step :
  (0 < step)%Z → (int64_min ≤ value)%Z →
  (value + Z.of_nat n * step ≤ int64_max)%Z →
  arange_fill n value step = (λ i, value + Z.of_nat i * step)%Z <$> seq 0 n.
Proof.
  intros Hstep. revert value.
  induction n as [|n IH]; intros value Hlo Hhi; [done|].
  simpl. f_equal; [lia|].
  rewrite wrap64_small by lia. rewrite IH by lia.
  rewrite <- fmap_S_seq, <- list_fmap_compose. apply list_fmap_ext.
  intros _ i _. simpl. lia.
Qed.

Lemma arange_length_spec start n step :
  (0 < step)%Z →
  arange_length start (start + Z.of_nat n * step) step = Z.of_nat n.
Proof.
  intros Hstep. unfold arange_length.
  assert ((0 <? step)%Z = true) as -> by (apply Z.ltb_lt; lia).
  destruct n as [|n].
  - assert ((start <? start + Z.of_nat 0 * step)%Z = false) as ->
      by (apply Z.ltb_ge; lia).
    assert ((step <? 0)%Z = false) as -> by (apply Z.ltb_ge; lia). done.
  - assert ((start <? start + Z.of_nat (S n) * step)%Z = true) as ->
      by (apply Z.ltb_lt; nia).
    simpl andb. cbv iota.
    replace (start + Z.of_nat (S n) * step - start + (step - 1))%Z
      with ((step - 1) + Z.of_nat (S n) * step)%Z by lia.
    rewrite Z.quot_div_nonneg by nia.
    rewrite Z.div_add by lia. rewrite Z.div_small by lia. lia.
Qed.

Lemma np_arange_spec start n step :
  (0 < step)%Z → (int64_min ≤ start)%Z →
  (start + Z.of_nat n * step ≤ int64_max)%Z →
  np_arange start (start + Z.of_nat n * step) step
  = Ok ((λ i, start + Z.of_nat i * step)%Z <$> seq 0 n).
Proof.
  intros Hstep Hlo Hhi. unfold np_arange.
  assert ((step =? 0)%Z = false) as -> by (apply Z.eqb_neq; lia).
  rewrite arange_length_spec, Nat2Z.id, arange_fill_spec by done. done.
Qed.

Section UnrollFacts.
Context {Latent Fields Forcings : Type}.
Variable transition : Forcings → Z → Latent → Latent.
Variable decode : Forcings → Latent → Fields.

Lemma trajectory_times forcings timedelta steps state :
  sim_time <$> trajectory transition forcings timedelta steps state
  = (λ i, sim_time state + Z.of_nat i * timedelta)%Z <$> seq 0 steps.
Proof.
  revert state. induction steps as [|n IH]; intros state; [done|].
  simpl. f_equal; [lia|]. rewrite IH.
  rewrite <- fmap_S_seq, <- list_fmap_compose. apply list_fmap_ext.
  intros _ i _. simpl. lia.
Qed.

Lemma unroll_times state forcings steps timedelta :
  valid_time <$> (unroll transition decode state forcings steps timedelta true).2
  = (λ i, sim_time state + Z.of_nat i * timedelta)%Z <$> seq 0 steps.
Proof.
  unfold unroll. simpl. rewrite <- list_fmap_compose.
  rewrite <- (trajectory_times forcings). done.
Qed.

(** Without [start_with_input] the first output is one step later. *)
Lemma unroll_without_input state forcings steps timedelta :
  valid_time <$> (unroll transition decode state forcings steps timedelta false).2
  = (λ i, sim_time state + Z.of_nat (S i) * timedelta)%Z <$> seq 0 steps.
Proof.
  unfold unroll. simpl. rewrite <- list_fmap_compose.
  etrans; [apply (trajectory_times forcings)|].
  apply list_fmap_ext. intros _ i _. simpl. lia.
Qed.

(** C4. A rollout of [steps] steps of [timedelta] with [start_with_input],
    from a state at time [t0], has exactly [steps] elements; element 0 is
    the decoded initial state, at [t0], and element [i] is at
    [t0 + i * timedelta]; the time stamps computed for the reassembly,
    [np.arange(t0, t0 + steps * timedelta, timedelta)] with [t0] the first
    of the time values, are
    [t0, t0 + timedelta, ..., t0 + (steps - 1) * timedelta], [steps] of
    them, the times of the elements (for a positive step, while the times
    and the span of the rollout fit in 64 bits). *)
Theorem unroll_start_with_input state forcings time_values steps timedelta t0 :
  sim_time state = t0 →
  time_values !! 0 = Some t0 →
  (0 < timedelta)%Z →
  (int64_min < t0)%Z →
  (t0 + Z.of_nat steps * timedelta ≤ int64_max)%Z →
  (Z.of_nat (S steps) * timedelta ≤ int64_max)%Z →
  let data_out :=
    (unroll transition decode state forcings steps timedelta true).2 in
  length data_out = steps
  ∧ (0 < steps → data_out !! 0 = Some (snapshot decode forcings state))
  ∧ (∀ i, i < steps →
       valid_time <$> data_out !! i = Some (t0 + Z.of_nat i * timedelta)%Z)
  ∧ ∃ times,
      rollout_times time_values steps timedelta = Ok times
      ∧ length times = steps
      ∧ times = (λ i, t0 + Z.of_nat i * timedelta)%Z <$> seq 0 steps
      ∧ times = valid_time <$> data_out.
Proof.
  intros Ht0 Hfirst Hdt Hlo Hhi Hspan data_out.
  assert (valid_time <$> data_out
          = (λ i, t0 + Z.of_nat i * timedelta)%Z <$> seq 0 steps) as Htimes.
  { unfold data_out. rewrite unroll_times, Ht0. done. }
  split; [|split; [|split]].
  - rewrite <- (length_fmap valid_time), Htimes, length_fmap, length_seq. done.
  - unfold data_out, unroll. simpl. destruct steps; [lia|]. done.
  - intros i Hi. rewrite <- list_lookup_fmap, Htimes, list_lookup_fmap.
    rewrite lookup_seq_lt by done. done.
  - exists ((λ i, t0 + Z.of_nat i * timedelta)%Z <$> seq 0 steps).
    split; [|split; [|split]]; [|by rewrite length_fmap, length_seq|done|done].
    unfold rollout_times. destruct time_values as [|? ?]; [done|].
    injection Hfirst as ->.
    rewrite (wrap64_small (Z.of_nat steps * timedelta))
      by (unfold int64_min in *; nia).
    rewrite wrap64_small by (unfold int64_min in *; nia).
    apply np_arange_spec; [done|lia|done].
Qed.
End UnrollFacts.

Lemma unroll_start_with_input_witness :
  let data_out :=
    (unroll (λ (_ : unit) (_ : Z) (x : nat), S x) (λ (_ : unit) (x : nat), x)
            {| sim_time := midnight; latent := 0 |} () timesteps dt true).2 in
  length data_out = 3
  ∧ valid_time <$> data_out = [midnight; midnight + dt; midnight + 2 * dt]%Z
  ∧ rollout_times [midnight] timesteps dt
    = Ok [midnight; midnight + dt; midnight + 2 * dt]%Z.
Proof.
  destruct (unroll_start_with_input
              (λ (_ : unit) (_ : Z) (x : nat), S x) (λ (_ : unit) (x : nat), x)
              {| sim_time := midnight; latent := 0 |} () [midnight]
              timesteps dt midnight)
    as (Hlen & _ & _ & times & Htimes & _ & Heq & Hout).
  - reflexivity.
  - reflexivity.
  - reflexivity.
  - reflexivity.
  - vm_compute. discriminate.
  - vm_compute. discriminate.
  - intros data_out. split; [exact Hlen|]. split.
    + unfold data_out. rewrite <- Hout, Heq. reflexivity.
    + rewrite Htimes, Heq. reflexivity.
Defined.

(** ** Validation *)

Lemma head_data_vars d n ds a :
  head d n ds = Ok a → data_vars a = var_head d n <$> data_vars ds.
Proof. unfold head. destruct (decide _); [|done]. by intros [= <-]. Qed.

Lemma drop_vars_Ok names ds e :
  drop_vars names ds = Ok e →
  data_vars e = foldr delete (data_vars ds) names
  ∧ coords e = foldr delete (coords ds) names.
Proof. unfold drop_vars. destruct (decide _); [|done]. by intros [= <-]. Qed.

Lemma lookup_foldr_delete {A} (m : gmap string A) names k :
  foldr delete m names !! k = if decide (k ∈ names) then None else m !! k.
Proof.
  induction names as [|n names IH]; simpl.
  - destruct (decide (k ∈ [])) as [H|_]; [by apply elem_of_nil in H|done].
  - destruct (decide (n = k)) as [->|Hne].
    + rewrite lookup_delete_eq.
      destruct (decide (k ∈ k :: names)) as [_|H]; [done|].
      exfalso. apply H. left.
    + rewrite lookup_delete_ne, IH by done.
      destruct (decide (k ∈ names)), (decide (k ∈ n :: names)) as [Hin|Hnot];
        try done.
      * exfalso. apply Hnot. by right.
      * apply elem_of_cons in Hin as [->|]; done.
Qed.

Lemma to_array_Ok {A} (m : gmap string A) xs :
  to_array m = Ok xs → ∀ x, x ∈ xs ↔ ∃ k, m !! k = Some x.
Proof.
  unfold to_array. intros H x.
  assert (xs = (map_to_list m).*2) as ->
    by (destruct ((map_to_list m).*2); congruence).
  rewrite list_elem_of_fmap. split.
  - intros ([k y] & -> & Hin). exists k. by apply elem_of_map_to_list.
  - intros [k Hk]. exists (k, x). split; [done|]. by apply elem_of_map_to_list.
Qed.

Lemma to_array_total {A} (m : gmap string A) k x :
  m !! k = Some x → to_array m = Ok (map_to_list m).*2.
Proof.
  intros Hk. unfold to_array.
  destruct (map_to_list m) as [|kv l] eqn:E; [|done].
  apply map_to_list_empty_iff in E. subst. by rewrite lookup_empty in Hk.
Qed.

Lemma array_all_true xs : array_all xs = true ↔ ∀ b, b ∈ xs → b = true.
Proof.
  unfold array_all. rewrite forallb_forall. split.
  - intros H b Hb. apply (H b). by apply list_elem_of_In.
  - intros H b Hb. apply H. by apply list_elem_of_In.
Qed.

(** The assertion holds exactly when some variable is compared and every
    compared variable is strictly below its threshold. *)
Lemma assert_tolerance_Passed error :
  assert_tolerance error = Passed ↔
    (∃ k, is_Some (error !! k) ∧ is_Some (tolerance !! k))
    ∧ ∀ k e t, error !! k = Some e → tolerance !! k = Some t →
               PrimFloat.ltb e t = true.
Proof.
  unfold assert_tolerance.
  set (flags := map_zip_with PrimFloat.ltb error tolerance).
  split.
  - destruct (to_array flags) as [xs|e] eqn:E; [|discriminate].
    destruct (array_all xs) eqn:Hall; [|discriminate]. intros _.
    pose proof (to_array_Ok _ _ E) as Hxs.
    pose proof (proj1 (array_all_true xs) Hall) as Hall'. split.
    + unfold to_array in E.
      destruct (map_to_list flags) as [|[k b] l] eqn:El; [discriminate|].
      assert (flags !! k = Some b) as Hk
        by (apply elem_of_map_to_list; rewrite El; left).
      apply map_lookup_zip_with_Some in Hk as (e & t & _ & He & Ht). eauto.
    + intros k e t He Ht. apply Hall', Hxs. exists k.
      apply map_lookup_zip_with_Some. eauto.
  - intros [(k & [e He] & [t Ht]) Hlt].
    assert (flags !! k = Some (PrimFloat.ltb e t)) as Hk
      by (apply map_lookup_zip_with_Some; eauto).
    rewrite (to_array_total _ _ _ Hk).
    assert (array_all (map_to_list flags).*2 = true) as ->; [|done].
    apply array_all_true. intros b Hb.
    apply (to_array_Ok _ _ (to_array_total _ _ _ Hk)) in Hb as [k' Hk'].
    apply map_lookup_zip_with_Some in Hk' as (e' & t' & -> & ? & ?). eauto.
Qed.

(** One variable that is not strictly below its threshold fails the
    assertion, and the message carries the whole table. *)
Lemma assert_tolerance_Failed error k e t :
  error !! k = Some e → tolerance !! k = Some t →
  PrimFloat.ltb e t = false →
  assert_tolerance error
  = Failed (NotTrue [Text ("typical relative error is too large:" +:+ LF);
                     Value error]).
Proof.
  intros He Ht Hlt. unfold assert_tolerance.
  set (flags := map_zip_with PrimFloat.ltb error tolerance).
  assert (flags !! k = Some false) as Hk.
  { apply map_lookup_zip_with_Some. exists e, t. eauto. }
  rewrite (to_array_total _ _ _ Hk).
  destruct (array_all _) eqn:Hall; [|done].
  pose proof (proj1 (array_all_true _) Hall false) as Hf.
  discriminate Hf.
  apply (to_array_Ok _ _ (to_array_total _ _ _ Hk)). eauto.
Qed.

Lemma tolerance_table k t :
  tolerance !! k = Some t ↔
  (k, t) ∈ [ ("u_component_of_wind", 0.04%float);
             ("v_component_of_wind", 0.08%float);
             ("temperature", 0.02%float);
             ("geopotential", 0.0005%float);
             ("specific_humidity", 0.003%float);
             ("specific_cloud_liquid_water_content", 0.12%float);
             ("specific_cloud_ice_water_content", 0.15%float) ].
Proof.
  unfold tolerance. symmetry. apply elem_of_list_to_map.
  by_computation.
Qed.

(** The constants of the table are the binary64 numbers nearest to the
    decimal fractions of the source. *)
Lemma tolerance_nearest :
  Forall (λ '(num, den, k),
            ∃ t, tolerance !! k = Some t ∧ nearest_double num den t = true)
    [ (4, 100, "u_component_of_wind"); (8, 100, "v_component_of_wind");
      (2, 100, "temperature"); (5, 10000, "geopotential");
      (3, 1000, "specific_humidity");
      (12, 100, "specific_cloud_liquid_water_content");
      (15, 100, "specific_cloud_ice_water_content") ]%Z.
Proof.
  repeat (constructor; [eexists; split; vm_compute; reflexivity|]).
  constructor.
Qed.

Lemma tolerance_not_forcing k t :
  tolerance !! k = Some t → k ∉ ["sea_surface_temperature"; "sea_ice_cover"].
Proof.
  intros Hk%tolerance_table Hf.
  repeat (apply elem_of_cons in Hk as [[= -> _]|Hk]; [not_in_list Hf|]).
  by apply elem_of_nil in Hk.
Qed.

Lemma broadcast_sizes_same a b :
  dims a = dims b → broadcast_sizes a b = sizes a.
Proof.
  intros Hd. unfold broadcast_sizes.
  rewrite filter_none; [by rewrite app_nil_r|].
  intros [d n] Hin Hnot. apply Hnot. simpl. rewrite Hd.
  unfold sizes in Hin. apply elem_of_zip_l in Hin. done.
Qed.

(** On two variables of the same dimensions and shape a binary operation is
    elementwise. *)
Lemma var_binop_same f a b :
  wf_var a → wf_var b → dims a = dims b →
  shape (values a) = shape (values b) →
  ∃ c, var_binop f a b = Ok c
       ∧ dims c = dims a ∧ shape (values c) = shape (values a)
       ∧ ∀ idx, idx ∈ ndindex (shape (values a)) →
           item (values c) idx = f (item (values a) idx) (item (values b) idx).
Proof.
  intros [Hnda Hla] [Hndb Hlb] Hd Hs. unfold var_binop.
  destruct (decide _) as [_|Hno].
  - eexists. split; [reflexivity|]. simpl.
    rewrite (broadcast_sizes_same a b Hd), sizes_fst, sizes_snd by done.
    split; [done|]. split; [done|]. intros idx Hidx.
    apply ndindex_length in Hidx.
    rewrite <- Hd, project_id; [done..|lia].
  - exfalso. apply Hno. apply Forall_forall. intros [d n] Hin. simpl.
    unfold fits.
    rewrite (dim_size_elem b d n); [by apply bool_decide_eq_true|done|].
    unfold sizes in *. by rewrite <- Hd, <- Hs.
Qed.

Section ValidationFacts.
Variables median std : list float → float.
Variable isclose : float → float → float → bool.

Lemma allclose_vars a b atol :
  allclose isclose a b atol = true →
  dom (data_vars a) = dom (data_vars b)
  ∧ ∀ k x y, data_vars a !! k = Some x → data_vars b !! k = Some y →
             dims x = dims y ∧ shape (values x) = shape (values y).
Proof.
  unfold allclose. rewrite !andb_true_iff, !bool_decide_eq_true.
  intros [[[_ Hdom] Hvars] _]. split; [done|].
  intros k x y Hx Hy.
  assert (map_zip_with (var_allclose isclose atol) (data_vars a) (data_vars b)
            !! k = Some (var_allclose isclose atol x y)) as Hk
    by (apply map_lookup_zip_with_Some; eauto).
  apply Hvars in Hk. unfold var_allclose, array_allclose in Hk.
  rewrite !andb_true_iff, !bool_decide_eq_true in Hk. tauto.
Qed.

Lemma typical_relative_error_lookup actual expected error k :
  typical_relative_error median std actual expected = Ok error →
  error !! k =
    a ← data_vars actual !! k;
    e ← data_vars expected !! k;
    d ← ok_value (var_binop PrimFloat.sub a e);
    Some (PrimFloat.div (median (ravel (values (var_map PrimFloat.abs d))))
                        (std (ravel (values e)))).
Proof.
  unfold typical_relative_error, ds_binop.
  destruct (map_try _ _) as [difference|e] eqn:Hd; simpl; [|discriminate].
  intros [= <-].
  rewrite map_lookup_zip_with. unfold reduce. rewrite !lookup_fmap.
  rewrite (map_try_lookup _ _ _ k Hd), map_lookup_zip_with.
  destruct (data_vars actual !! k) as [a|]; simpl; [|done].
  destruct (data_vars expected !! k) as [e|]; simpl; [|done].
  destruct (var_binop PrimFloat.sub a e); simpl; done.
Qed.

Lemma typical_relative_error_dom actual expected error :
  typical_relative_error median std actual expected = Ok error →
  dom error = dom (data_vars actual) ∩ dom (data_vars expected).
Proof.
  intros Herr. apply set_eq. intros k.
  rewrite elem_of_intersection, !elem_of_dom.
  rewrite (typical_relative_error_lookup _ _ _ k Herr).
  revert Herr. unfold typical_relative_error, ds_binop.
  destruct (map_try _ _) as [difference|e] eqn:Hd; simpl; [|discriminate].
  intros _. apply map_try_Ok in Hd as [_ Hd].
  destruct (data_vars actual !! k) as [a|] eqn:Ha; simpl;
    [|split; [intros []; done|intros [[] _]; done]].
  destruct (data_vars expected !! k) as [e|] eqn:He; simpl;
    [|split; [intros []; done|intros [_ []]; done]].
  destruct (Hd k (var_binop PrimFloat.sub a e)) as [c Hc].
  { apply map_lookup_zip_with_Some. eauto. }
  simpl in Hc. rewrite Hc. simpl. split; eauto.
Qed.

Lemma typical_relative_error_total actual expected atol :
  wf_dataset actual → wf_dataset expected →
  allclose isclose actual expected atol = true →
  ∃ error, typical_relative_error median std actual expected = Ok error.
Proof.
  intros Ha He [_ Hsame]%allclose_vars.
  unfold typical_relative_error, ds_binop.
  rewrite map_try_total; [simpl; eauto|].
  intros k r (x & y & -> & Hx & Hy)%map_lookup_zip_with_Some.
  destruct (Hsame k x y Hx Hy) as [Hd Hs].
  destruct (var_binop_same PrimFloat.sub x y) as (c & -> & _); eauto.
Qed.

Lemma validate_Passed ds_out ds_in :
  validate median std isclose ds_out ds_in = Passed →
  ∃ actual expected error,
    head "time" 1 ds_out = Ok actual
    ∧ drop_vars ["sea_surface_temperature"; "sea_ice_cover"] ds_in
      = Ok expected
    ∧ allclose isclose actual expected 1e6 = true
    ∧ typical_relative_error median std actual expected = Ok error
    ∧ assert_tolerance error = Passed.
Proof.
  unfold validate.
  destruct (head _ _ _) as [actual|]; [|discriminate].
  destruct (drop_vars _ _) as [expected|]; [|discriminate].
  destruct (allclose _ _ _ _) eqn:Hc; [|discriminate].
  destruct (typical_relative_error _ _ _ _) as [error|] eqn:He;
    [|discriminate].
  intros Hp. exists actual, expected, error. done.
Qed.



(** C1. The thresholds are exactly the seven of the table, and the test
    passes only if every one of these variables has its typical relative
    error strictly below its threshold: on a passing run each of the seven
    that the regridded dataset holds has an error value, and every error
    value of a variable of the table is below the variable's threshold. *)
Theorem tolerance_thresholds ds_out ds_in :
  (∀ k t, tolerance !! k = Some t ↔
     (k, t) ∈ [ ("u_component_of_wind", 0.04%float);
                ("v_component_of_wind", 0.08%float);
                ("temperature", 0.02%float);
                ("geopotential", 0.0005%float);
                ("specific_humidity", 0.003%float);
                ("specific_cloud_liquid_water_content", 0.12%float);
                ("specific_cloud_ice_water_content", 0.15%float) ])
  ∧ (validate median std isclose ds_out ds_in = Passed →
     ∃ actual expected error,
       head "time" 1 ds_out = Ok actual
       ∧ drop_vars ["sea_surface_temperature"; "sea_ice_cover"] ds_in
         = Ok expected
       ∧ typical_relative_error median std actual expected = Ok error
       ∧ ∀ k t, tolerance !! k = Some t →
           (∀ e, error !! k = Some e → PrimFloat.ltb e t = true)
           ∧ (k ∈ dom (data_vars ds_in) →
              ∃ e, error !! k = Some e ∧ PrimFloat.ltb e t = true)).
Proof.
  split; [apply tolerance_table|].
  intros (actual & expected & error & Hh & Hd & Hc & Herr & Hp)%validate_Passed.
  exists actual, expected, error. repeat (split; [done|]).
  apply assert_tolerance_Passed in Hp as [_ Hlt].
  intros k t Ht. split; [intros e He; eauto|].
  intros Hin.
  assert (k ∈ dom error) as [e He]%elem_of_dom; [|eauto].
  rewrite (typical_relative_error_dom _ _ _ Herr).
  apply allclose_vars in Hc as [-> _].
  apply drop_vars_Ok in Hd as [-> _].
  apply elem_of_intersection.
  enough (k ∈ dom (foldr delete (data_vars ds_in)
                     ["sea_surface_temperature"; "sea_ice_cover"])) by done.
  apply elem_of_dom. rewrite lookup_foldr_delete.
  apply tolerance_not_forcing in Ht.
  rewrite decide_False by done. by apply elem_of_dom.
Qed.

(** C3. When the run reaches the tolerance check and some variable's
    typical relative error exceeds its threshold, the test fails, and the
    message of the failure holds the table of the errors of all the
    variables. *)
Theorem breach_reports_full_table ds_out ds_in actual expected error k e t :
  head "time" 1 ds_out = Ok actual →
  drop_vars ["sea_surface_temperature"; "sea_ice_cover"] ds_in = Ok expected →
  allclose isclose actual expected 1e6 = true →
  typical_relative_error median std actual expected = Ok error →
  error !! k = Some e → tolerance !! k = Some t →
  PrimFloat.ltb t e = true →
  ∃ msg,
    validate median std isclose ds_out ds_in = Failed (NotTrue msg)
    ∧ ∀ k' e', error !! k' = Some e' →
        ∃ table, Value table ∈ msg ∧ table !! k' = Some e'.
Proof.
  intros Hh Hd Hc Herr He Ht Hgt. unfold validate.
  rewrite Hh, Hd, Hc, Herr.
  rewrite (assert_tolerance_Failed error k e t He Ht (ltb_asym _ _ Hgt)).
  eexists. split; [reflexivity|].
  intros k' e' He'. exists error. split; [|done]. right. left.
Qed.
End ValidationFacts.

(** C9. The check is a strict comparison over every variable that has an
    error and a threshold: a variable whose error equals its threshold, or
    is NaN, fails the assertion, and the assertion holds only when every
    such variable is strictly below its threshold. *)
Theorem tolerance_check_strict error :
  (∀ k e t, error !! k = Some e → tolerance !! k = Some t →
     PrimFloat.eqb e t = true ∨ is_nan e = true →
     ∃ msg, assert_tolerance error = Failed (NotTrue msg))
  ∧ (assert_tolerance error = Passed →
     ∀ k e t, error !! k = Some e → tolerance !! k = Some t →
       PrimFloat.ltb e t = true).
Proof.
  split.
  - intros k e t He Ht Hcase. eexists.
    apply (assert_tolerance_Failed error k e t He Ht).
    destruct Hcase; [by apply ltb_eqb|by apply ltb_nan].
  - intros [_ H]%assert_tolerance_Passed. exact H.
Qed.

(** ** The theorems on the example datasets *)




Lemma tolerance_thresholds_witness :
  ∃ actual expected error,
    head "time" 1 (output_of 1 3) = Ok actual
    ∧ drop_vars ["sea_surface_temperature"; "sea_ice_cover"] ds_in_example
      = Ok expected
    ∧ typical_relative_error median64 std64 actual expected = Ok error
    ∧ ∀ k t, tolerance !! k = Some t →
        (∀ e, error !! k = Some e → PrimFloat.ltb e t = true)
        ∧ (k ∈ dom (data_vars ds_in_example) →
           ∃ e, error !! k = Some e ∧ PrimFloat.ltb e t = true).
Proof.
  apply (proj2 (tolerance_thresholds median64 std64 isclose64
                  (output_of 1 3) ds_in_example)).
  vm_compute. reflexivity.
Defined.

Lemma breach_reports_full_table_witness :
  ∃ msg,
    validate median64 std64 isclose64 (output_of 1.5 3) ds_in_example
    = Failed (NotTrue msg)
    ∧ ∀ k' e',
        from_ok ∅ (typical_relative_error median64 std64
                     (actual_of (output_of 1.5 3)) expected_example)
          !! k' = Some e' →
        ∃ table, Value table ∈ msg ∧ table !! k' = Some e'.
Proof.
  apply (breach_reports_full_table median64 std64 isclose64
           (output_of 1.5 3) ds_in_example
           (actual_of (output_of 1.5 3)) expected_example
           (from_ok ∅ (typical_relative_error median64 std64
                         (actual_of (output_of 1.5 3)) expected_example))
           "temperature" 0.25%float 0.02%float);
    vm_compute; reflexivity.
Defined.

Lemma tolerance_check_strict_witness :
  (∃ msg, assert_tolerance {["temperature" := 0.02%float]}
          = Failed (NotTrue msg))
  ∧ (∃ msg, assert_tolerance {["geopotential" := nan]} = Failed (NotTrue msg))
  ∧ PrimFloat.ltb 0.01 0.02 = true.
Proof.
  split; [|split].
  - apply (proj1 (tolerance_check_strict {["temperature" := 0.02%float]})
             "temperature" 0.02%float 0.02%float);
      [vm_compute; reflexivity..|left; vm_compute; reflexivity].
  - apply (proj1 (tolerance_check_strict {["geopotential" := nan]})
             "geopotential" nan 0.0005%float);
      [vm_compute; reflexivity..|right; vm_compute; reflexivity].
  - refine (proj2 (tolerance_check_strict {["temperature" := 0.01%float]})
              _ "temperature" 0.01%float 0.02%float _ _);
      vm_compute; reflexivity.
Defined.

(** * Further properties of the code

    Properties of [horizontal_regrid] and of the steps of
    [test_stochastic_model_basics] beyond those above. *)

(** ** Index ranges and the vectorized call *)

Lemma elem_of_ndindex s idx : idx ∈ ndindex s ↔ Forall2 lt idx s.
Proof.
  revert idx. induction s as [|n s IH]; intros idx; simpl.
  - rewrite list_elem_of_singleton. split; [intros ->; constructor|].
    by intros ->%Forall2_nil_inv_r.
  - rewrite list_elem_of_In, in_flat_map. split.
    + intros (i & Hi & Hin). apply in_seq in Hi.
      apply list_elem_of_In, list_elem_of_fmap in Hin as (idx' & -> & Hidx').
      constructor; [lia|]. by apply IH.
    + intros H. apply Forall2_cons_inv_r in H as (i & idx' & Hi & Hidx' & ->).
      exists i. split; [apply in_seq; lia|].
      apply list_elem_of_In, list_elem_of_fmap. exists idx'. split; [done|].
      by apply IH.
Qed.




Lemma apply_variable_ufunc_inv func core v v' :
  apply_variable_ufunc func core v = Ok v' →
  ∃ r0, dims v' = (loop_sizes core v).*1 ++ core
        ∧ shape (values v') = (loop_sizes core v).*2 ++ shape r0
        ∧ length (shape r0) = length core
        ∧ ndindex (loop_sizes core v).*2 ≠ []
        ∧ ∀ o, o ∈ ndindex (loop_sizes core v).*2 →
            ∃ r, func (core_slice core v o) = Ok r ∧ shape r = shape r0
                 ∧ ∀ ij, item (values v') (o ++ ij) = item r ij.
Proof.
  intros H. pose proof H as (_ & _ & _ & Hitem)%apply_variable_ufunc_Ok.
  revert H. unfold apply_variable_ufunc.
  destruct (decide (Forall _ core)) as [Hcore|]; [|discriminate].
  destruct (mapM _ _) as [results|] eqn:Hm; simpl; [|discriminate].
  destruct results as [|r0 results]; [discriminate|].
  destruct (decide _) as [[Hlen Hshape]|]; [|discriminate].
  intros [= <-]. exists r0. simpl.
  split; [done|]. split; [done|]. split; [done|]. split.
  { intros Hnil. rewrite Hnil in Hm. discriminate. }
  intros o Ho. destruct (Hitem o Ho) as (r & Hr & Hi).
  exists r. split; [done|]. split; [|done].
  apply mapM_result_Ok in Hm.
  apply list_elem_of_lookup in Ho as [i Hio].
  destruct (Forall2_lookup_l _ _ _ _ _ Hm Hio) as (r' & Hr' & Hfr).
  rewrite Hr in Hfr. injection Hfr as <-.
  rewrite Forall_forall in Hshape. apply Hshape.
  by eapply list_elem_of_lookup_2.
Qed.

Lemma sizes_regridded func core v v' :
  apply_variable_ufunc func core v = Ok v' →
  ∃ r0, sizes v' = loop_sizes core v ++ zip core (shape r0)
        ∧ length (shape r0) = length core
        ∧ ∀ o, o ∈ ndindex (loop_sizes core v).*2 →
            ∃ r, func (core_slice core v o) = Ok r ∧ shape r = shape r0.
Proof.
  intros (r0 & Hd & Hs & Hlen & _ & Hall)%apply_variable_ufunc_inv.
  exists r0. unfold sizes. rewrite Hd, Hs.
  rewrite zip_app, zip_fst_snd by by rewrite !length_fmap.
  split; [done|]. split; [done|].
  intros o Ho. destruct (Hall o Ho) as (r & ? & ? & _). eauto.
Qed.

Lemma dim_size_app_r v d l1 l2 :
  sizes v = l1 ++ l2 → Forall (λ p, p.1 ≠ d) l1 →
  dim_size d v = (λ p : nat * (string * nat), p.2.2) <$> list_find (λ p, p.1 = d) l2.
Proof.
  intros Hs Hl. unfold dim_size. rewrite Hs, list_find_app_r.
  - by destruct (list_find _ l2) as [[? [? ?]]|].
  - apply list_find_None. done.
Qed.

Lemma dim_size_horizontal v v' func :
  apply_variable_ufunc func horizontal v = Ok v' →
  ∃ a b, dim_size "longitude" v' = Some a ∧ dim_size "latitude" v' = Some b
         ∧ ∀ o, o ∈ ndindex (loop_sizes horizontal v).*2 →
             ∃ r, func (core_slice horizontal v o) = Ok r ∧ shape r = [a; b].
Proof.
  intros (r0 & Hs & Hlen & Hall)%sizes_regridded.
  destruct (shape r0) as [|a [|b [|? ?]]] eqn:Hr0; try done.
  exists a, b.
  pose proof (loop_sizes_off horizontal v) as Hoff.
  split; [|split; [|done]].
  - rewrite (dim_size_app_r v' _ _ _ Hs); [done|].
    eapply Forall_impl; [exact Hoff|]. intros p Hp Heq. apply Hp.
    rewrite Heq. unfold horizontal. repeat constructor.
  - rewrite (dim_size_app_r v' _ _ _ Hs); [done|].
    eapply Forall_impl; [exact Hoff|]. intros p Hp Heq. apply Hp.
    rewrite Heq. unfold horizontal. repeat constructor.
Qed.

Lemma assign_coord_fits name labels ds ds' :
  assign_coord name labels ds = Ok ds' →
  map_Forall (λ _ v, fits name (length labels) v = true) (data_vars ds).
Proof. unfold assign_coord. by destruct (decide _). Qed.

Lemma horizontal_regrid_inv regridder dataset out k v' :
  horizontal_regrid regridder dataset = Ok out →
  data_vars out !! k = Some v' →
  ∃ v, data_vars dataset !! k = Some v
       ∧ apply_variable_ufunc (call regridder) horizontal v = Ok v'
       ∧ fits "longitude" (length (longitudes (target_grid regridder))) v' = true
       ∧ fits "latitude" (length (latitudes (target_grid regridder))) v' = true.
Proof.
  unfold horizontal_regrid.
  destruct (apply_ufunc _ _ _) as [r1|] eqn:H1; simpl; [|done].
  destruct (assign_coord "longitude" _ r1) as [r2|] eqn:H2; simpl; [|done].
  intros H3 Hk.
  pose proof (assign_coord_fits _ _ _ _ H2) as Hf2.
  pose proof (assign_coord_fits _ _ _ _ H3) as Hf3.
  apply assign_coord_Ok in H3 as [Hv3 _].
  apply assign_coord_Ok in H2 as [Hv2 _].
  apply apply_ufunc_Ok in H1 as [Hv1 _].
  rewrite Hv3 in Hk. rewrite Hv2 in Hk, Hf3.
  pose proof (Hf2 k v' Hk) as Hlon. pose proof (Hf3 k v' Hk) as Hlat.
  unfold degrees in Hlon, Hlat. rewrite length_fmap in Hlon, Hlat.
  rewrite (map_try_lookup _ _ _ k Hv1) in Hk.
  destruct (data_vars dataset !! k) as [v|]; simpl in Hk; [|done].
  exists v. split; [done|].
  destruct (apply_variable_ufunc _ _ v) as [w|]; simpl in Hk; [|done].
  injection Hk as ->. done.
Qed.

(** ** The regridded dataset

    X1. Whenever [horizontal_regrid] returns, every data variable of the
    output has the target grid's number of longitudes and latitudes along
    its two horizontal dimensions, and these are the lengths of the
    longitude and latitude coordinates that the output carries: the
    coordinates assigned at lines 41-42 always fit the regridded fields. *)
Theorem horizontal_regrid_on_target_grid regridder dataset out k v' :
  horizontal_regrid regridder dataset = Ok out →
  data_vars out !! k = Some v' →
  dim_size "longitude" v' = Some (length (longitudes (target_grid regridder)))
  ∧ dim_size "latitude" v' = Some (length (latitudes (target_grid regridder)))
  ∧ ∃ c_lon c_lat,
      coords out !! "longitude" = Some c_lon
      ∧ coords out !! "latitude" = Some c_lat
      ∧ dim_size "longitude" v' = Some (length (c_labels c_lon))
      ∧ dim_size "latitude" v' = Some (length (c_labels c_lat)).
Proof.
  intros Hr Hk.
  destruct (horizontal_regrid_inv _ _ _ _ _ Hr Hk) as (v & _ & Hv & Hlon & Hlat).
  destruct (dim_size_horizontal _ _ _ Hv) as (a & b & Ha & Hb & _).
  unfold fits in Hlon, Hlat. rewrite Ha in Hlon. rewrite Hb in Hlat.
  apply bool_decide_eq_true in Hlon as ->. apply bool_decide_eq_true in Hlat as ->.
  split; [done|]. split; [done|].
  apply horizontal_regrid_Ok in Hr as [_ Hc].
  eexists _, _. rewrite Hc. rewrite lookup_insert_ne, !lookup_insert_eq by done.
  split; [done|]. split; [done|]. simpl. unfold degrees. rewrite !length_fmap. done.
Qed.

Lemma horizontal_regrid_on_target_grid_witness :
  dim_size "longitude"
    (the_var "temperature"
       (from_ok no_data (horizontal_regrid averaging ds_tl31_example)))
  = Some 1
  ∧ dim_size "latitude"
      (the_var "temperature"
         (from_ok no_data (horizontal_regrid averaging ds_tl31_example)))
    = Some 1.
Proof.
  destruct (horizontal_regrid_on_target_grid averaging ds_tl31_example
              (from_ok no_data (horizontal_regrid averaging ds_tl31_example))
              "temperature"
              (the_var "temperature"
                 (from_ok no_data (horizontal_regrid averaging ds_tl31_example))))
    as (Hlon & Hlat & _).
  - vm_compute. reflexivity.
  - vm_compute. reflexivity.
  - split; [exact Hlon|exact Hlat].
Defined.





Lemma NoDup_horizontal : NoDup horizontal.
Proof. unfold horizontal. apply (bool_decide_unpack _). vm_compute. exact I. Qed.

(** The sizes of a variable whose last dimensions are the core ones. *)
Lemma loop_sizes_core_last core names v :
  wf_var v → dims v = names ++ core →
  loop_sizes core v = zip names (take (length names) (shape (values v)))
  ∧ sizes v = zip names (take (length names) (shape (values v)))
              ++ zip core (drop (length names) (shape (values v)))
  ∧ Forall (λ d, d ∉ core) names.
Proof.
  intros [Hnd Hlen] Hd. rewrite Hd in Hnd, Hlen. rewrite length_app in Hlen.
  apply NoDup_app in Hnd as (_ & Hdisj & _).
  assert (sizes v = zip names (take (length names) (shape (values v)))
                    ++ zip core (drop (length names) (shape (values v)))) as Hs.
  { unfold sizes. rewrite Hd.
    rewrite <- (take_drop (length names) (shape (values v))) at 1.
    apply zip_app. rewrite length_take. lia. }
  split; [|split; [done|]].
  - unfold loop_sizes. rewrite Hs, filter_app.
    rewrite filter_all, filter_none; [by rewrite app_nil_r| |].
    + intros [d n] Hin%elem_of_zip_l Hnot. done.
    + apply Forall_forall. intros [d n] Hin%elem_of_zip_l. simpl. by apply Hdisj.
  - apply Forall_forall. intros d Hin. by apply Hdisj.
Qed.

(** X3. A regridder that returns every field as it is leaves a data
    variable unchanged, provided longitude and latitude are its last two
    dimensions, in this order: same dimensions, same shape, same elements.
    (In another order of dimensions the core dimensions are moved last.) *)
Theorem horizontal_regrid_identity regridder dataset out names k v v' :
  (∀ field, call regridder field = Ok field) →
  horizontal_regrid regridder dataset = Ok out →
  data_vars dataset !! k = Some v → data_vars out !! k = Some v' →
  wf_var v → dims v = names ++ horizontal →
  dims v' = dims v
  ∧ shape (values v') = shape (values v)
  ∧ ∀ idx, idx ∈ ndindex (shape (values v)) →
      item (values v') idx = item (values v) idx.
Proof.
  intros Hid Hr Hk Hk' Hwf Hd.
  destruct (horizontal_regrid_inv _ _ _ _ _ Hr Hk') as (w & Hw & Hv' & _).
  rewrite Hk in Hw. injection Hw as <-.
  destruct (loop_sizes_core_last horizontal names v Hwf Hd) as (Hloop & Hs & Hnames).
  destruct Hwf as [Hnd Hlen]. rewrite Hd, length_app in Hlen. simpl in Hlen.
  pose proof (take_drop (length names) (shape (values v))) as Hsplit.
  set (S1 := take (length names) (shape (values v))) in *.
  set (S2 := drop (length names) (shape (values v))) in *.
  assert (length S1 = length names) as HS1 by (unfold S1; rewrite length_take; lia).
  assert (length S2 = 2) as HS2 by (unfold S2; rewrite length_drop; lia).
  assert ((loop_sizes horizontal v).*1 = names) as Hl1
    by (rewrite Hloop; apply fst_zip; lia).
  assert ((loop_sizes horizontal v).*2 = S1) as Hl2
    by (rewrite Hloop; apply snd_zip; lia).
  assert (∀ o, shape (core_slice horizontal v o) = S2) as Hcs.
  { intros o. destruct S2 as [|a [|b [|? ?]]] eqn:ES2; try done. simpl.
    rewrite !(dim_size_app_r v _ _ _ Hs); [done|..].
    - apply Forall_forall. intros [d n] Hin%elem_of_zip_l Heq. simpl in Heq.
      rewrite Forall_forall in Hnames. apply (Hnames d Hin). rewrite Heq.
      unfold horizontal. repeat constructor.
    - apply Forall_forall. intros [d n] Hin%elem_of_zip_l Heq. simpl in Heq.
      rewrite Forall_forall in Hnames. apply (Hnames d Hin). rewrite Heq.
      unfold horizontal. repeat constructor. }
  apply apply_variable_ufunc_inv in Hv'
    as (r0 & Hdims & Hshape & _ & Hne & Hall).
  rewrite Hl1 in Hdims. rewrite Hl2 in Hshape, Hne, Hall.
  assert (shape r0 = S2) as Hr0.
  { destruct (ndindex S1) as [|o l] eqn:Ho; [done|].
    destruct (Hall o) as (r & Hr' & <- & _); [left|].
    rewrite Hid in Hr'. injection Hr' as <-. apply Hcs. }
  split; [by rewrite Hdims, Hd|]. split; [by rewrite Hshape, Hr0|].
  intros idx Hidx. rewrite <- Hsplit in Hidx.
  apply elem_of_ndindex, Forall2_app_inv_r in Hidx
    as (o & ij & Ho & Hij & ->).
  pose proof (Forall2_length _ _ _ Ho) as Hlo.
  pose proof (Forall2_length _ _ _ Hij) as Hlij.
  destruct (Hall o) as (r & Hr' & _ & Hitem); [by apply elem_of_ndindex|].
  rewrite Hid in Hr'. injection Hr' as <-.
  rewrite Hitem. simpl. rewrite Hd, gather_core_last; [done|..].
  - apply NoDup_horizontal.
  - done.
  - lia.
  - unfold horizontal. simpl. lia.
Qed.

Lemma horizontal_regrid_identity_witness :
  dims (the_var "temperature" ds_in_example) = ["time"; "longitude"; "latitude"]
  ∧ item (values (the_var "temperature" ds_in_example)) [0; 1; 0]
    = item (values (the_var "temperature" ds_tl31_example)) [0; 1; 0].
Proof.
  destruct (horizontal_regrid_identity same_grid ds_tl31_example ds_in_example
              ["time"] "temperature"
              (the_var "temperature" ds_tl31_example)
              (the_var "temperature" ds_in_example))
    as (Hdims & _ & Hitem).
  - intros field. reflexivity.
  - vm_compute. reflexivity.
  - vm_compute. reflexivity.
  - vm_compute. reflexivity.
  - by_computation.
  - vm_compute. reflexivity.
  - split; [rewrite Hdims; vm_compute; reflexivity|].
    apply Hitem. vm_compute. right. left.
Defined.

(** ** The time stamps for any step *)





(** ** Loading and regridding the reference *)

Lemma load_reference_Ok file ds_tl31 :
  load_reference file = Ok ds_tl31 →
  data_vars ds_tl31 = var_expand_dims "time" <$> data_vars file
  ∧ coords ds_tl31
    = alter (λ c, {| c_dim := Some "time"; c_labels := c_labels c |})
            "time" (coords file).
Proof.
  unfold load_reference, expand_dims.
  destruct (decide _); [done|]. destruct (names_non_scalar _ _); [done|].
  by intros [= <-].
Qed.

(** X5. Lines 60 and 64 together: when the reference is loaded and
    regridded, the regridded dataset has the data variables of the file,
    each with "time" as its first dimension, of length one, and the time
    coordinate of the file as the coordinate of that dimension, with the
    file's labels. *)
Theorem regridded_reference_has_one_time_step file regridder ds_tl31 ds_in :
  load_reference file = Ok ds_tl31 →
  horizontal_regrid regridder ds_tl31 = Ok ds_in →
  dom (data_vars ds_in) = dom (data_vars file)
  ∧ (∀ k v, data_vars ds_in !! k = Some v →
       sizes v !! 0 = Some ("time", 1) ∧ dim_size "time" v = Some 1)
  ∧ (∀ c, coords file !! "time" = Some c →
       coords ds_in !! "time"
       = Some {| c_dim := Some "time"; c_labels := c_labels c |}).
Proof.
  intros [Hv Hc]%load_reference_Ok Hr. split; [|split].
  - pose proof Hr as [Hvars _]%horizontal_regrid_Ok.
    apply set_eq. intros k.
    rewrite !elem_of_dom, (map_try_lookup _ _ _ k Hvars), Hv, lookup_fmap.
    apply map_try_Ok in Hvars as [_ Hall].
    destruct (data_vars file !! k) as [v|] eqn:Hk; simpl.
    + destruct (Hall k (var_expand_dims "time" v)) as [v' ->];
        [by rewrite Hv, lookup_fmap, Hk|]. simpl. split; eauto.
    + split; intros []; done.
  - intros k v' Hk.
    destruct (horizontal_regrid_inv _ _ _ _ _ Hr Hk) as (w & Hw & Hv' & _).
    rewrite Hv, lookup_fmap in Hw.
    destruct (data_vars file !! k) as [v|]; simpl in Hw; [|done].
    injection Hw as <-.
    apply sizes_regridded in Hv' as (r0 & Hs & _).
    assert (loop_sizes horizontal (var_expand_dims "time" v)
            = ("time", 1) :: loop_sizes horizontal v) as Hloop.
    { unfold loop_sizes, sizes. simpl. rewrite filter_cons_True; [done|].
      simpl. unfold horizontal. intros H.
      apply elem_of_cons in H as [H|H]; [discriminate|].
      apply elem_of_cons in H as [H|H]; [discriminate|].
      by apply elem_of_nil in H. }
    rewrite Hloop in Hs. unfold dim_size. rewrite Hs. simpl. done.
  - intros c Hfile. apply horizontal_regrid_Ok in Hr as [_ ->].
    rewrite lookup_insert_ne by done. rewrite lookup_insert_ne by done.
    apply map_lookup_filter_Some. split; [|simpl; unfold off_dims; simpl].
    2:{ unfold horizontal. intros H.
        apply elem_of_cons in H as [H|H]; [discriminate|].
        apply elem_of_cons in H as [H|H]; [discriminate|].
        by apply elem_of_nil in H. }
    rewrite Hc, lookup_alter_eq, Hfile. done.
Qed.

Lemma regridded_reference_has_one_time_step_witness :
  dom (data_vars ds_in_example) = dom (data_vars era5_snapshot)
  ∧ dim_size "time" (the_var "geopotential" ds_in_example) = Some 1
  ∧ coords ds_in_example !! "time"
    = Some {| c_dim := Some "time"; c_labels := [LTime midnight] |}.
Proof.
  destruct (regridded_reference_has_one_time_step era5_snapshot same_grid
              ds_tl31_example ds_in_example) as (Hdom & Hvars & Htime).
  - vm_compute. reflexivity.
  - vm_compute. reflexivity.
  - split; [exact Hdom|]. split.
    + apply (Hvars "geopotential"). vm_compute. reflexivity.
    + apply (Htime {| c_dim := None; c_labels := [LTime midnight] |}).
      vm_compute. reflexivity.
Defined.

(** ** The outcomes of the tolerance check *)

(** A quotient by zero is NaN or an infinity with the sign of the
    numerator: for a numerator that is not negative it is below nothing. *)
Lemma div_zero_not_below (m t : float) :
  PrimFloat.ltb m 0 = false → PrimFloat.ltb (m / 0) t = false.
Proof.
  rewrite !FloatAxioms.ltb_spec, FloatAxioms.div_spec.
  change (Prim2SF 0) with (S754_zero false). unfold SF64div, SFltb.
  destruct (Prim2SF m) as [s|s| |s mm e]; simpl; try done.
  - destruct s; [done|]. intros _. by destruct (Prim2SF t) as [?|[]| |[] ? ?].
  - destruct s; [done|]. intros _. by destruct (Prim2SF t) as [?|[]| |[] ? ?].
Qed.







(** X7. Errors of variables that have no threshold cannot change the
    outcome: two tables of errors that agree on the variables of the
    tolerance table pass together and raise together. *)
Theorem untabled_variables_are_ignored error1 error2 :
  (∀ k, is_Some (tolerance !! k) → error1 !! k = error2 !! k) →
  (assert_tolerance error1 = Passed ↔ assert_tolerance error2 = Passed)
  ∧ (assert_tolerance error1 = Errored ValueError
     ↔ assert_tolerance error2 = Errored ValueError).
Proof.
  intros Hsame.
  assert (map_zip_with PrimFloat.ltb error1 tolerance
          = map_zip_with PrimFloat.ltb error2 tolerance) as Hflags.
  { apply map_eq. intros k. rewrite !map_lookup_zip_with.
    destruct (tolerance !! k) as [t|] eqn:Ht.
    - by rewrite (Hsame k) by by rewrite Ht.
    - by destruct (error1 !! k), (error2 !! k). }
  unfold assert_tolerance. rewrite Hflags.
  destruct (to_array _) as [xs|e]; [|done].
  destruct (array_all xs); done.
Qed.

Lemma untabled_variables_are_ignored_witness :
  assert_tolerance table_with_vorticity = Passed.
Proof.
  apply (proj1 (proj1 (untabled_variables_are_ignored
                         table_example table_with_vorticity
                         ltac:(intros k [t Ht];
                               destruct (decide (k = "vorticity")) as [->|Hk];
                               [vm_compute in Ht; discriminate|];
                               unfold table_with_vorticity;
                               by rewrite lookup_insert_ne)))).
  vm_compute. reflexivity.
Defined.

(** ** The outcomes of the validation *)

Lemma wf_var_head d n v : wf_var v → wf_var (var_head d n v).
Proof.
  intros [Hnd Hlen]. split; [done|]. simpl. rewrite length_zip_with. lia.
Qed.

Lemma wf_head d n ds actual :
  wf_dataset ds → head d n ds = Ok actual → wf_dataset actual.
Proof.
  intros Hwf Hh k v. rewrite (head_data_vars _ _ _ _ Hh), lookup_fmap.
  destruct (data_vars ds !! k) as [w|] eqn:Hk; simpl; [|done].
  intros [= <-]. apply wf_var_head. by apply (Hwf k).
Qed.

Lemma wf_drop_vars names ds expected :
  wf_dataset ds → drop_vars names ds = Ok expected → wf_dataset expected.
Proof.
  intros Hwf [Hv _]%drop_vars_Ok k v. rewrite Hv, lookup_foldr_delete.
  destruct (decide _); [done|]. apply Hwf.
Qed.

Section ValidationOutcomes.
Variables median std : list float → float.
Variable isclose : float → float → float → bool.

Lemma typical_relative_error_same actual expected atol error k a e :
  wf_dataset actual → wf_dataset expected →
  allclose isclose actual expected atol = true →
  typical_relative_error median std actual expected = Ok error →
  data_vars actual !! k = Some a → data_vars expected !! k = Some e →
  error !! k = Some (relative_error median std a e).
Proof.
  intros Hwa Hwe [_ Hsame]%allclose_vars Herr Ha He.
  rewrite (typical_relative_error_lookup _ _ _ _ _ k Herr), Ha, He. simpl.
  destruct (Hsame k a e Ha He) as [Hd Hs].
  destruct (var_binop_same PrimFloat.sub a e)
    as (c & -> & _ & Hsc & Hitem); eauto.
  simpl. unfold relative_error. do 3 f_equal.
  apply ravel_zip_with; simpl; [done..|].
  intros idx Hidx. by rewrite Hitem.
Qed.

(** The table of errors of two datasets that passed the comparison. *)
Lemma typical_relative_error_closed actual expected atol :
  wf_dataset actual → wf_dataset expected →
  allclose isclose actual expected atol = true →
  typical_relative_error median std actual expected
  = Ok (map_zip_with (relative_error median std) (data_vars actual) (data_vars expected)).
Proof.
  intros Hwa Hwe Hc.
  destruct (typical_relative_error_total median std isclose _ _ _ Hwa Hwe Hc)
    as [error Herr].
  rewrite Herr. f_equal. apply map_eq. intros k.
  rewrite map_lookup_zip_with.
  destruct (data_vars actual !! k) as [a|] eqn:Ha; simpl.
  - destruct (data_vars expected !! k) as [e|] eqn:He; simpl.
    + by apply (typical_relative_error_same actual expected atol).
    + rewrite (typical_relative_error_lookup _ _ _ _ _ k Herr), Ha, He. done.
  - rewrite (typical_relative_error_lookup _ _ _ _ _ k Herr), Ha. done.
Qed.



(** X10. An expected variable with a threshold whose values have zero
    standard deviation makes the validation fail at line 100, however close
    the output is: with a median that is not negative, the quotient of line
    89 by zero is NaN or +infinity, and neither is below a threshold. *)
Theorem zero_spread_fails ds_out ds_in actual expected k a e t :
  wf_dataset ds_out → wf_dataset ds_in →
  head "time" 1 ds_out = Ok actual →
  drop_vars ["sea_surface_temperature"; "sea_ice_cover"] ds_in = Ok expected →
  allclose isclose actual expected 1e6 = true →
  data_vars actual !! k = Some a → data_vars expected !! k = Some e →
  tolerance !! k = Some t →
  std (ravel (values e)) = 0%float →
  PrimFloat.ltb
    (median (zip_with (λ x y, PrimFloat.abs (PrimFloat.sub x y))
                      (ravel (values a)) (ravel (values e)))) 0 = false →
  ∃ msg, validate median std isclose ds_out ds_in = Failed (NotTrue msg).
Proof.
  intros Hwo Hwi Hh Hd Hc Ha He Ht Hstd Hmed. unfold validate.
  rewrite Hh, Hd, Hc.
  pose proof (wf_head _ _ _ _ Hwo Hh) as Hwa.
  pose proof (wf_drop_vars _ _ _ Hwi Hd) as Hwe.
  rewrite (typical_relative_error_closed _ _ _ Hwa Hwe Hc).
  eexists. apply (assert_tolerance_Failed _ k (relative_error median std a e) t).
  - apply map_lookup_zip_with_Some. eauto.
  - done.
  - unfold relative_error. rewrite Hstd. by apply div_zero_not_below.
Qed.
End ValidationOutcomes.



Lemma zero_spread_fails_witness :
  ∃ msg, validate median64 std64 isclose64 (output_of 2 2) flat_reference
         = Failed (NotTrue msg).
Proof.
  apply (zero_spread_fails median64 std64 isclose64
           (output_of 2 2) flat_reference
           (actual_of (output_of 2 2))
           (from_ok no_data (drop_vars forcing_names flat_reference))
           "temperature"
           (the_var "temperature" (actual_of (output_of 2 2)))
           (the_var "temperature"
              (from_ok no_data (drop_vars forcing_names flat_reference)))
           0.02%float).
  - by_computation.
  - by_computation.
  - vm_compute. reflexivity.
  - vm_compute. reflexivity.
  - vm_compute. reflexivity.
  - vm_compute. reflexivity.
  - vm_compute. reflexivity.
  - vm_compute. reflexivity.
  - vm_compute. reflexivity.
  - vm_compute. reflexivity.
Defined.

(** ** The first step of the output *)

Lemma forallb_agree {A} (f g : A → bool) l :
  (∀ x, x ∈ l → f x = g x) → forallb f l = forallb g l.
Proof.
  induction l as [|x l IH]; intros H; [done|]. simpl.
  rewrite (H x) by left. rewrite IH; [done|]. intros y Hy. apply H. by right.
Qed.

Lemma ravel_equiv v1 v2 : var_equiv v1 v2 → ravel (values v1) = ravel (values v2).
Proof.
  intros (_ & Hs & Hitem). unfold ravel. rewrite <- Hs.
  apply list_fmap_ext. intros i idx Hi. apply Hitem.
  by eapply list_elem_of_lookup_2.
Qed.

Lemma has_dim_same_head d ds1 ds2 :
  same_head d ds1 ds2 → has_dim d ds1 ↔ has_dim d ds2.
Proof.
  assert (∀ a b, same_head d a b → has_dim d a → has_dim d b) as Hone.
  { intros a b [Hc Hv] [Hin|Hin]; [left|right].
    - apply map_Exists_lookup in Hin as (k & v & Hk & Hd).
      pose proof (Hv k) as Hrel. rewrite Hk in Hrel.
      inversion Hrel as [? w [Hdims _] Ha Hb|]; subst.
      apply map_Exists_lookup. exists k, w. split; [done|].
      simpl in Hdims. by rewrite <- Hdims.
    - apply map_Exists_lookup in Hin as (k & c & Hk & Hd).
      assert ((coord_head d 1 <$> coords a) !! k
              = (coord_head d 1 <$> coords b) !! k) as Hl by by rewrite Hc.
      rewrite !lookup_fmap, Hk in Hl. simpl in Hl.
      destruct (coords b !! k) as [c'|] eqn:Hk'; simpl in Hl; [|done].
      apply map_Exists_lookup. exists k, c'. split; [done|].
      injection Hl as Hdim _. by rewrite <- Hdim. }
  intros H. split; [by apply Hone|]. apply Hone.
  destruct H as [Hc Hv]. split; [done|].
  intros k. specialize (Hv k).
  destruct Hv as [v1 v2 (H1 & H2 & H3)|]; constructor.
  split; [done|]. split; [done|]. intros idx Hidx. symmetry. apply H3.
  by rewrite H2.
Qed.

Section FirstStep.
Variables median std : list float → float.
Variable isclose : float → float → float → bool.

Lemma var_allclose_equiv atol v1 v2 e :
  var_equiv v1 v2 →
  var_allclose isclose atol v1 e = var_allclose isclose atol v2 e.
Proof.
  intros (Hd & Hs & Hitem). unfold var_allclose, array_allclose.
  rewrite Hd, <- Hs. do 2 f_equal. apply forallb_agree.
  intros idx Hidx. by rewrite Hitem.
Qed.

Lemma allclose_equiv a1 a2 expected atol :
  coords a1 = coords a2 →
  (∀ k, option_Forall2 var_equiv (data_vars a1 !! k) (data_vars a2 !! k)) →
  allclose isclose a1 expected atol = allclose isclose a2 expected atol
  ∧ map_zip_with (relative_error median std) (data_vars a1) (data_vars expected)
    = map_zip_with (relative_error median std) (data_vars a2) (data_vars expected).
Proof.
  intros Hc Hv. split.
  - unfold allclose. rewrite Hc.
    assert (dom (data_vars a1) = dom (data_vars a2)) as ->.
    { apply set_eq. intros k. rewrite !elem_of_dom.
      destruct (Hv k); split; intros [? ?]; done || eauto. }
    assert (map_zip_with (var_allclose isclose atol) (data_vars a1)
              (data_vars expected)
            = map_zip_with (var_allclose isclose atol) (data_vars a2)
                (data_vars expected)) as ->; [|done].
    apply map_eq. intros k. rewrite !map_lookup_zip_with.
    destruct (Hv k) as [v1 v2 Hvv|]; simpl; [|done].
    destruct (data_vars expected !! k); simpl; [|done].
    by rewrite (var_allclose_equiv _ _ _ _ Hvv).
  - apply map_eq. intros k. rewrite !map_lookup_zip_with.
    destruct (Hv k) as [v1 v2 Hvv|]; simpl; [|done].
    destruct (data_vars expected !! k); simpl; [|done].
    unfold relative_error. by rewrite (ravel_equiv _ _ Hvv).
Qed.

(** X11. The validation looks at the first time step of the output only:
    two well-formed outputs that agree up to their first step (the same
    coordinates and data variables once cut to one step, whatever the
    number and the values of their later steps) give the same outcome. *)
Theorem validate_first_step_only ds_out1 ds_out2 ds_in :
  wf_dataset ds_out1 → wf_dataset ds_out2 → wf_dataset ds_in →
  same_head "time" ds_out1 ds_out2 →
  validate median std isclose ds_out1 ds_in
  = validate median std isclose ds_out2 ds_in.
Proof.
  intros Hw1 Hw2 Hwi Hsame. unfold validate.
  pose proof (has_dim_same_head _ _ _ Hsame) as Hdim.
  destruct (head "time" 1 ds_out1) as [a1|] eqn:H1;
    destruct (head "time" 1 ds_out2) as [a2|] eqn:H2.
  - pose proof (wf_head _ _ _ _ Hw1 H1) as Hwa1.
    pose proof (wf_head _ _ _ _ Hw2 H2) as Hwa2.
    unfold head in H1, H2.
    destruct (decide (has_dim "time" ds_out1)); [|done].
    destruct (decide (has_dim "time" ds_out2)); [|done].
    injection H1 as <-. injection H2 as <-.
    destruct (drop_vars _ ds_in) as [expected|] eqn:Hd; [|done].
    pose proof (wf_drop_vars _ _ _ Hwi Hd) as Hwe.
    destruct Hsame as [Hc Hv].
    destruct (allclose_equiv
                {| data_vars := var_head "time" 1 <$> data_vars ds_out1;
                   coords := coord_head "time" 1 <$> coords ds_out1 |}
                {| data_vars := var_head "time" 1 <$> data_vars ds_out2;
                   coords := coord_head "time" 1 <$> coords ds_out2 |}
                expected 1e6) as [Hclose Herr].
    { done. }
    { intros k. simpl. rewrite !lookup_fmap.
      destruct (Hv k); simpl; by constructor. }
    destruct (allclose isclose
                {| data_vars := var_head "time" 1 <$> data_vars ds_out1;
                   coords := coord_head "time" 1 <$> coords ds_out1 |}
                expected 1e6) eqn:Hc1;
      symmetry in Hclose; rewrite Hclose; [|done].
    rewrite (typical_relative_error_closed median std isclose _ _ _ Hwa1 Hwe Hc1).
    rewrite (typical_relative_error_closed median std isclose _ _ _ Hwa2 Hwe Hclose).
    by rewrite Herr.
  - exfalso. unfold head in H1, H2.
    destruct (decide (has_dim "time" ds_out1)); [|done].
    destruct (decide (has_dim "time" ds_out2)); [done|]. tauto.
  - exfalso. unfold head in H1, H2.
    destruct (decide (has_dim "time" ds_out2)); [|done].
    destruct (decide (has_dim "time" ds_out1)); [done|]. tauto.
  - unfold head in H1, H2.
    destruct (decide (has_dim "time" ds_out1)); [done|].
    destruct (decide (has_dim "time" ds_out2)); [done|]. congruence.
Qed.
End FirstStep.

Lemma lookup_const_map {A} (names : list string) (v : A) k :
  (list_to_map ((λ name, (name, v)) <$> names) : gmap string A) !! k
  = if decide (k ∈ names) then Some v else None.
Proof.
  induction names as [|name names IH].
  - rewrite fmap_nil, list_to_map_nil, lookup_empty. destruct (decide (k ∈ [])) as [Hin|]; [|done].
    by apply elem_of_nil in Hin.
  - rewrite fmap_cons, list_to_map_cons.
    destruct (decide (k = name)) as [->|Hne].
    + rewrite lookup_insert_eq.
      destruct (decide (name ∈ name :: names)) as [|Hnot]; [done|].
      exfalso. apply Hnot. left.
    + rewrite lookup_insert_ne, IH by done.
      destruct (decide (k ∈ names)) as [Hin|Hin];
        destruct (decide (k ∈ name :: names)) as [Hin'|Hin']; try done.
      * exfalso. apply Hin'. by right.
      * apply elem_of_cons in Hin' as [?|?]; done.
Qed.

Lemma validate_first_step_only_witness :
  validate median64 std64 isclose64 (two_step_output 1 3 7) ds_in_example
  = Passed.
Proof.
  rewrite <- (validate_first_step_only median64 std64 isclose64
                (output_of 1 3) (two_step_output 1 3 7) ds_in_example).
  - vm_compute. reflexivity.
  - by_computation.
  - by_computation.
  - by_computation.
  - split.
    + vm_compute. reflexivity.
    + intros k. unfold output_of, two_step_output. cbn [data_vars].
      rewrite !lookup_const_map.
      destruct (decide _); constructor.
      split; [reflexivity|]. split; [reflexivity|].
      intros idx Hidx. vm_compute in Hidx.
      repeat (apply elem_of_cons in Hidx as [->|Hidx];
              [vm_compute; reflexivity|]).
      by apply elem_of_nil in Hidx.
Defined.
